(** * gb-sc-homework: amount conversion, confirmation waiting, account set-up

    A shallow embedding of [main.go] (and of the one generated binding it
    reads balances through), together with the fragments of [math/big] and
    [github.com/shopspring/decimal] that [ToDecimal] and [ToWei] call.

    The library fragments follow the sources of Go's [math/big] and
    [strconv] and of [shopspring/decimal] (as of v1.3.1); each definition
    names the function it embeds.

    Go values are embedded as follows.
    - [*big.Int] is a [Z]; a nil pointer is [None].
    - [decimal.Decimal] is a record of an unscaled [Z] and a base-10 exponent.
    - Go strings are [string]s; every byte the functions look at is ASCII.
    - A call that can panic or exit returns an [outcome]; a call that
      returns a value and an [error] returns a pair. *)

From Stdlib Require Import ZArith NArith List String Ascii Bool Lia QArith Qpower.
From Stdlib Require Import DecimalString DecimalN DecimalPos.
Import ListNotations.

Local Open Scope string_scope.
Local Open Scope Z_scope.

(** ** Outcomes of a Go call *)

Inductive outcome (A : Type) : Type :=
| Return (a : A)            (* the call returns normally *)
| Panic (msg : string)      (* the call panics *)
| Fatal (msg : string)      (* log.Fatal: the process exits *)
| OutOfFuel.                (* recursion bound of the embedding reached *)

Arguments Return {A} a.
Arguments Panic {A} msg.
Arguments Fatal {A} msg.
Arguments OutOfFuel {A}.

Definition bind {A B : Type} (m : outcome A) (k : A -> outcome B) : outcome B :=
  match m with
  | Return a => k a
  | Panic msg => Panic msg
  | Fatal msg => Fatal msg
  | OutOfFuel => OutOfFuel
  end.

Notation "x <- m ;; k" := (bind m (fun x => k))
  (at level 61, m at next level, right associativity).

(** Go's [error], carried by its message; [None] is a nil error. *)
Definition error : Type := string.

(** ** Go string primitives *)

Module strings.

(** [s[:n]] *)
Fixpoint take (n : nat) (s : string) : string :=
  match n, s with
  | S n', String c r => String c (take n' r)
  | _, _ => EmptyString
  end.

(** [s[n:]] *)
Fixpoint drop (n : nat) (s : string) : string :=
  match n, s with
  | S n', String _ r => drop n' r
  | _, _ => s
  end.

(** [strings.Repeat("0", n)] *)
Fixpoint Repeat0 (n : nat) : string :=
  match n with
  | O => EmptyString
  | S n' => String "0" (Repeat0 n')
  end.

(** The suffix-trimming loop of [Decimal.string]: drops the trailing
    ['0'] bytes. *)
Fixpoint trimRight0 (s : string) : string :=
  match s with
  | EmptyString => EmptyString
  | String c r =>
      match trimRight0 r with
      | EmptyString => if Ascii.eqb c "0" then EmptyString else String c EmptyString
      | t => String c t
      end
  end.

(** [strings.IndexAny(s, "Ee")] *)
Fixpoint IndexAnyEe (s : string) : option nat :=
  match s with
  | EmptyString => None
  | String c r =>
      if (Ascii.eqb c "E" || Ascii.eqb c "e")%bool then Some O
      else option_map S (IndexAnyEe r)
  end.

(** Positions of the ['.'] bytes of [s], counted from [i]. *)
Fixpoint dots (i : nat) (s : string) : list nat :=
  match s with
  | EmptyString => []
  | String c r => if Ascii.eqb c "." then i :: dots (S i) r else dots (S i) r
  end.

End strings.

(** ** math/big *)

Module big.

(** Value of a decimal digit byte. *)
Definition digit (c : ascii) : option N :=
  let n := N_of_ascii c in
  if ((48 <=? n) && (n <=? 57))%N then Some (n - 48)%N else None.

(** [scanSign]: reads one byte; [None] is the read error on an empty
    input. *)
Definition scanSign (s : string) : option (bool * string) :=
  match s with
  | EmptyString => None
  | String c r =>
      if Ascii.eqb c "-" then Some (true, r)
      else if Ascii.eqb c "+" then Some (false, r)
      else Some (false, s)
  end.

(** [nat.scan] in base 10 without fraction: consumes the longest prefix
    of digits; yields the value, the number of digits and the unread
    rest. *)
Fixpoint scan (s : string) (acc : N) (count : nat) : N * nat * string :=
  match s with
  | EmptyString => (acc, count, s)
  | String c r =>
      match digit c with
      | Some d => scan r (acc * 10 + d)%N (S count)
      | None => (acc, count, s)
      end
  end.

(** [z.SetString(s, 10)]: the receiver's value after the call and the
    success flag.  The receiver is written before the whole input is
    known to be valid: when a digit prefix is followed by other bytes
    the call fails and the receiver holds the prefix; when there is no
    digit the magnitude is reset to zero; on an empty input the receiver
    is untouched. *)
Definition SetString (z : Z) (s : string) : Z * bool :=
  match scanSign s with
  | None => (z, false)
  | Some (neg, r) =>
      let '(abs, count, rest) := scan r 0%N O in
      match count with
      | O => (0, false)
      | S _ =>
          ((if neg then - Z.of_N abs else Z.of_N abs),
           match rest with EmptyString => true | _ => false end)
      end
  end.

(** Decimal digits of a natural number, most significant first. *)
Definition utoa (n : N) : string := NilEmpty.string_of_uint (N.to_uint n).

(** [x.String()] on a non-nil receiver. *)
Definition itoa (x : Z) : string :=
  if x <? 0 then String "-" (utoa (Z.to_N (- x))) else utoa (Z.to_N x).

(** [x.String()]; a nil receiver prints as ["<nil>"]. *)
Definition String (x : option Z) : string :=
  match x with
  | None => "<nil>"
  | Some v => itoa v
  end.

(** [x.Int64()]: the low 64 bits of the magnitude reinterpreted as an
    [int64], negated (with wrap-around) for a negative [x]. *)
Definition wrap64 (x : Z) : Z := (x + 2 ^ 63) mod 2 ^ 64 - 2 ^ 63.

Definition Int64 (x : Z) : Z :=
  let v := wrap64 (Z.abs x mod 2 ^ 64) in
  if x <? 0 then wrap64 (- v) else v.

End big.

(** ** strconv *)

Module strconv.

(** [strconv.ParseInt(s, 10, bitSize)]; [None] stands for both the
    syntax and the range error. *)
Definition ParseInt (s : string) (bitSize : Z) : option Z :=
  match s with
  | EmptyString => None
  | String c r =>
      let '(neg, body) :=
        if Ascii.eqb c "+" then (false, r)
        else if Ascii.eqb c "-" then (true, r)
        else (false, s) in
      let '(un, count, rest) := big.scan body 0%N O in
      match count, rest with
      | S _, EmptyString =>
          let cutoff := 2 ^ (bitSize - 1) in
          if neg then
            if cutoff <? Z.of_N un then None else Some (- Z.of_N un)
          else
            if cutoff <=? Z.of_N un then None else Some (Z.of_N un)
      | _, _ => None
      end
  end.

End strconv.

(** ** github.com/shopspring/decimal *)

Module decimal.

(** [Decimal{value, exp}] denotes [value * 10^exp].  The library keeps
    [exp] in an [int32]; the embedding keeps it in [Z] and raises the
    library's overflow panics where the library checks the range. *)
Record Decimal : Type := mkDecimal { value : Z; exp : Z }.

Definition MaxInt32 : Z := 2 ^ 31 - 1.
Definition MinInt32 : Z := - 2 ^ 31.

(** Package variable [DivisionPrecision]; [main.go] never assigns it. *)
Definition DivisionPrecision : Z := 16.

(** [Decimal{}]; every method first replaces a nil [value] by zero
    ([ensureInitialized]). *)
Definition Zero : Decimal := mkDecimal 0 0.

(** [New(value, exp)] *)
Definition New (v e : Z) : Decimal := mkDecimal v e.

(** The rational number a [Decimal] stands for. *)
Definition toQ (d : Decimal) : Q := (inject_Z (value d) * 10 ^ exp d)%Q.

(** *** float64 arguments

    A [float64] is carried by what [NewFromFloat] reads off it: NaN, an
    infinity, or the shortest decimal that parses back to the same
    float. *)
Inductive float64 : Type :=
| NaN
| Inf (negative : bool)
| Finite (shortest : Decimal).

(** Dropping the trailing decimal zeros of a non-zero integer. *)
Fixpoint strip10 (fuel : nat) (m k : Z) : Z * Z :=
  match fuel with
  | O => (m, k)
  | S f =>
      if ((Z.rem m 10 =? 0) && negb (m =? 0))%bool
      then strip10 f (Z.quot m 10) (k + 1)
      else (m, k)
  end.

(** The conversion [float64(n)] of an integer.  It is exact for
    [|n| <= 2^53], where the shortest decimal of the float is [n]
    without its trailing zeros (at most 16 digits); larger magnitudes
    round and are not followed here. *)
Definition float64_of_int (n : Z) : float64 :=
  let '(m, k) := strip10 16 n 0 in Finite (mkDecimal m k).

(** [NewFromFloat(f)] *)
Definition NewFromFloat (f : float64) : outcome Decimal :=
  match f with
  | NaN => Panic "Cannot create a Decimal from NaN"
  | Inf _ => Panic "Cannot create a Decimal from Inf"
  | Finite d => Return d
  end.

(** [NewFromString(value)] *)
Definition NewFromString (value : string) : Decimal * option error :=
  let scientific :=
    match strings.IndexAnyEe value with
    | Some eIndex =>
        match strconv.ParseInt (strings.drop (S eIndex) value) 32 with
        | Some expInt => Some (strings.take eIndex value, expInt)
        | None => None
        end
    | None => Some (value, 0)
    end in
  match scientific with
  | None => (Zero, Some "can't convert to decimal: exponent is not numeric")
  | Some (value, exp0) =>
      let split :=
        match strings.dots O value with
        | [] => Some (value, exp0)
        | [pIndex] =>
            let tail := strings.drop (S pIndex) value in
            Some (strings.take pIndex value ++ tail,
                  exp0 - Z.of_nat (String.length tail))
        | _ => None
        end in
      match split with
      | None => (Zero, Some "can't convert to decimal: too many .s")
      | Some (intString, exp) =>
          let parsed :=
            if (String.length intString <=? 18)%nat
            then strconv.ParseInt intString 64
            else
              let '(v, ok) := big.SetString 0 intString in
              if ok then Some v else None in
          match parsed with
          | None => (Zero, Some "can't convert to decimal")
          | Some dValue =>
              if ((exp <? MinInt32) || (MaxInt32 <? exp))%bool
              then (Zero, Some "can't convert to decimal: fractional part too long")
              else (mkDecimal dValue exp, None)
          end
      end
  end.

(** [d.rescale(exp)] *)
Definition rescale (d : Decimal) (e : Z) : Decimal :=
  if exp d =? e then d
  else
    let diff := Z.abs (e - exp d) in
    let expScale := 10 ^ diff in
    if exp d <? e then mkDecimal (Z.quot (value d) expScale) e
    else mkDecimal (value d * expScale) e.

(** [RescalePair(d1, d2)] *)
Definition RescalePair (d1 d2 : Decimal) : Decimal * Decimal :=
  if exp d1 =? exp d2 then (d1, d2)
  else
    let baseScale := Z.min (exp d1) (exp d2) in
    if negb (baseScale =? exp d1) then (rescale d1 baseScale, d2)
    else (d1, rescale d2 baseScale).

(** [d.Abs()] *)
Definition Abs (d : Decimal) : Decimal := mkDecimal (Z.abs (value d)) (exp d).

(** [d.Add(d2)] *)
Definition Add (d d2 : Decimal) : Decimal :=
  let '(rd, rd2) := RescalePair d d2 in
  mkDecimal (value rd + value rd2) (exp rd).

(** [d.Sub(d2)] *)
Definition Sub (d d2 : Decimal) : Decimal :=
  let '(rd, rd2) := RescalePair d d2 in
  mkDecimal (value rd - value rd2) (exp rd).

(** [d.Mul(d2)] *)
Definition Mul (d d2 : Decimal) : outcome Decimal :=
  let expInt64 := exp d + exp d2 in
  if ((MaxInt32 <? expInt64) || (expInt64 <? MinInt32))%bool
  then Panic "exponent overflows an int32!"
  else Return (mkDecimal (value d * value d2) expInt64).

(** [d.Cmp(d2)]: -1, 0 or 1 *)
Definition Cmp (d d2 : Decimal) : Z :=
  let '(rd, rd2) := RescalePair d d2 in
  match value rd ?= value rd2 with
  | Lt => -1
  | Eq => 0
  | Gt => 1
  end.

(** [d.Equal(d2)] *)
Definition Equal (d d2 : Decimal) : bool := Cmp d d2 =? 0.

(** [d.QuoRem(d2, precision)] *)
Definition QuoRem (d d2 : Decimal) (precision : Z) : outcome (Decimal * Decimal) :=
  if value d2 =? 0 then Panic "decimal division by 0"
  else
    let scale := - precision in
    let e := exp d - exp d2 - scale in
    if ((MaxInt32 <? e) || (e <? MinInt32))%bool
    then Panic "overflow in decimal QuoRem"
    else
      let '(aa, bb, scalerest) :=
        if e <? 0
        then (value d, value d2 * 10 ^ (- e), exp d)
        else (value d * 10 ^ e, value d2, scale + exp d2) in
      Return (mkDecimal (Z.quot aa bb) scale, mkDecimal (Z.rem aa bb) scalerest).

(** [d.DivRound(d2, precision)]: the quotient rounded half away from
    zero to a multiple of [10^(-precision)]. *)
Definition DivRound (d d2 : Decimal) (precision : Z) : outcome Decimal :=
  qr <- QuoRem d d2 precision ;;
  let '(q, r) := qr in
  let rv2 := Z.shiftl (Z.abs (value r)) 1 in
  let r2 := mkDecimal rv2 (exp r + precision) in
  let c := Cmp r2 (Abs d2) in
  if c <? 0 then Return q
  else if Z.sgn (value d) * Z.sgn (value d2) <? 0
       then Return (Sub q (New 1 (- precision)))
       else Return (Add q (New 1 (- precision))).

(** [d.Div(d2)] *)
Definition Div (d d2 : Decimal) : outcome Decimal :=
  DivRound d d2 DivisionPrecision.

(** [d.IntPart()] *)
Definition IntPart (d : Decimal) : Z := big.Int64 (value (rescale d 0)).

(** [d.Pow(d2)]: square-and-multiply on the integer part of [d2], which
    each call halves.  [fuel] bounds the depth of the recursion. *)
Fixpoint PowFuel (fuel : nat) (d d2 : Decimal) : outcome Decimal :=
  match fuel with
  | O => OutOfFuel
  | S fuel' =>
      if IntPart d2 =? 0 then NewFromFloat (float64_of_int 1)
      else
        two <- NewFromFloat (float64_of_int 2) ;;
        half <- Div d2 two ;;
        temp <- PowFuel fuel' d half ;;
        sq <- Mul temp temp ;;
        if Z.rem (IntPart d2) 2 =? 0 then Return sq
        else if 0 <? IntPart d2 then Mul sq d
        else Div sq d
  end.

(** The integer part is an [int64], so its magnitude is below [2^64]
    and is halved by every call. *)
Definition PowDepth : nat := 66.

Definition Pow (d d2 : Decimal) : outcome Decimal := PowFuel PowDepth d d2.

(** [d.String()] *)
Definition String (d : Decimal) : string :=
  if 0 <=? exp d then big.itoa (value (rescale d 0))
  else
    let str := big.itoa (Z.abs (value d)) in
    let len := Z.of_nat (String.length str) in
    let dExpInt := exp d in
    let '(intPart, fractionalPart) :=
      if - dExpInt <? len
      then (strings.take (Z.to_nat (len + dExpInt)) str,
            strings.drop (Z.to_nat (len + dExpInt)) str)
      else ("0", strings.Repeat0 (Z.to_nat (- dExpInt - len)) ++ str) in
    let fractionalPart := strings.trimRight0 fractionalPart in
    let number :=
      match fractionalPart with
      | EmptyString => intPart
      | _ => intPart ++ "." ++ fractionalPart
      end in
    if value d <? 0 then "-" ++ number else number.

End decimal.

(** ** AmountConverter ([main.go], lines 35-74) *)

(** The dynamic types an [interface{}] argument is switched on. *)
Inductive iface : Type :=
| IString (v : string)
| IBigInt (v : option Z)                (* *big.Int, possibly nil *)
| IFloat64 (v : decimal.float64)
| IInt64 (v : Z)
| IDecimal (v : decimal.Decimal)
| IDecimalPtr (v : option decimal.Decimal)      (* *Decimal, possibly nil *)
| IOther.                               (* any other dynamic type, or nil *)

(** [decimal.NewFromFloat(float64(10)).Pow(decimal.NewFromFloat(float64(decimals)))] *)
Definition tenPow (decimals : Z) : outcome decimal.Decimal :=
  ten <- decimal.NewFromFloat (decimal.float64_of_int 10) ;;
  e <- decimal.NewFromFloat (decimal.float64_of_int decimals) ;;
  decimal.Pow ten e.

Definition ToDecimal (ivalue : iface) (decimals : Z) : outcome decimal.Decimal :=
  let value : option Z :=
    match ivalue with
    | IString v => Some (fst (big.SetString 0 v))
    | IBigInt v => v
    | _ => Some 0
    end in
  mul <- tenPow decimals ;;
  let num := fst (decimal.NewFromString (big.String value)) in
  decimal.Div num mul.

Definition ToWei (iamount : iface) (decimals : Z) : outcome Z :=
  amount0 <- decimal.NewFromFloat (decimal.float64_of_int 0) ;;
  amount <-
    match iamount with
    | IString v => Return (fst (decimal.NewFromString v))
    | IFloat64 v => decimal.NewFromFloat v
    | IInt64 v => decimal.NewFromFloat (decimal.float64_of_int v)
    | IDecimal v => Return v
    | IDecimalPtr (Some v) => Return v
    | IDecimalPtr None => Panic "invalid memory address or nil pointer dereference"
    | _ => Return amount0
    end ;;
  mul <- tenPow decimals ;;
  result <- decimal.Mul amount mul ;;
  Return (fst (big.SetString 0 (decimal.String result))).

(** ** Balance display ([IERC20Metadata.go], lines 216-228; [main.go], lines 194-199) *)

(** What [contract.Call] hands back to a read binding. *)
Inductive CallResult : Type :=
| CallOk (out0 : Z)
| CallErr (err : error).

(** [ERC20tokenCaller.BalanceOf]: a nil [*big.Int] next to the error. *)
Definition BalanceOf (call : CallResult) : option Z * option error :=
  match call with
  | CallErr err => (None, Some err)
  | CallOk out0 => (Some out0, None)
  end.

Definition newline : string := String (ascii_of_nat 10) EmptyString.

(** [fmt.Println(a, b)] for two operands printed through [String()]. *)
Definition Println2 (a b : string) : string := a ++ " " ++ b ++ newline.

(** [balance, _ := tokenInstance.BalanceOf(...)] followed by
    [fmt.Println(label, ToDecimal(balance, int(decimals)))]; yields the
    printed line. *)
Definition showBalance (label : string) (call : CallResult) (decimals : Z)
  : outcome string :=
  let '(balance, _) := BalanceOf call in
  shown <- ToDecimal (IBigInt balance) decimals ;;
  Return (Println2 label (decimal.String shown)).

(** The "show balances" step of [main]. *)
Definition showBalances (deployerCall userCall : CallResult) (decimals : Z)
  : outcome (list string) :=
  l1 <- showBalance "Deployer balance: " deployerCall decimals ;;
  l2 <- showBalance "User balance: " userCall decimals ;;
  Return [l1; l2].

(** ** ConfirmationWaiter ([main.go], lines 130-166) *)

Module Waiter.

(** Reply of [client.TransactionReceipt]: the receipt's [Status]
    (a [uint64]) or an error, which is also what a not yet mined
    transaction gives. *)
Inductive ReceiptReply : Type :=
| Receipt (status : Z)
| ReceiptErr (err : error).

(** What the [select] of the loop receives. *)
Inductive event : Type :=
| SubErr (err : error)              (* <-sub.Err() *)
| NewHead (reply : ReceiptReply).   (* <-soc, with the reply the poll then gets *)

(** Return values of [WaitForBlockCompletion]. *)
Definition Succeeded : Z := 1.
Definition Failed : Z := 0.
Definition SubscriptionError : Z := -1.

Definition checkTransactionReceipt (reply : ReceiptReply) : Z :=
  match reply with
  | ReceiptErr _ => -1
  | Receipt status => big.wrap64 status        (* int(tx.Status) *)
  end.

(** The loop's state: the calls made so far and, once the function has
    returned, its result. *)
Record state : Type := mkState {
  polls : nat;                 (* calls of checkTransactionReceipt *)
  unsubscribes : nat;          (* calls of sub.Unsubscribe *)
  result : option Z
}.

Definition Subscribed : state := mkState 0 0 None.

(** One iteration of the [for { select { ... } }] loop. *)
Definition step (s : state) (ev : event) : state :=
  match result s with
  | Some _ => s
  | None =>
      match ev with
      | SubErr _ => mkState (polls s) (unsubscribes s) (Some (-1))
      | NewHead reply =>
          let transactionStatus := checkTransactionReceipt reply in
          if transactionStatus =? 0
          then mkState (S (polls s)) (S (unsubscribes s)) (Some 0)
          else if transactionStatus =? 1
          then mkState (S (polls s)) (S (unsubscribes s)) (Some 1)
          else mkState (S (polls s)) (unsubscribes s) None
      end
  end.

Definition run (events : list event) : state := fold_left step events Subscribed.

(** [WaitForBlockCompletion]: [subscribe] is the error of
    [client.SubscribeNewHead], [events] what the two channels deliver, in
    the order the [select] takes them.  A [result] of [None] means the
    function is still blocked in the [select]. *)
Definition WaitForBlockCompletion (subscribe : option error) (events : list event)
  : outcome state :=
  match subscribe with
  | Some err => Fatal err
  | None => Return (run events)
  end.

(** A poll that leaves the loop waiting. *)
Definition pending (ev : event) : bool :=
  match ev with
  | SubErr _ => false
  | NewHead reply =>
      let st := checkTransactionReceipt reply in
      negb (st =? 0) && negb (st =? 1)
  end.

End Waiter.

(** ** AccountSigner ([main.go], lines 87-128) *)

Section AccountSigner.

(** [crypto/ecdsa] keys and [common.Address] with the three library
    functions [getAccount] calls on them. *)
Variables PrivateKey PublicKey Address : Type.
Variable HexToECDSA : string -> PrivateKey + error.
Variable Public : PrivateKey -> PublicKey.
Variable PubkeyToAddress : PublicKey -> Address.

(** Replies of the node to the two queries of [getAccount]; a
    successful reply carries a non-nil [*big.Int]. *)
Record Client : Type := mkClient {
  NetworkID : Z + error;
  SuggestGasPrice : Z + error
}.

(** [bind.TransactOpts]; the [Signer] closure is carried by the chain
    id it signs for. *)
Record TransactOpts : Type := mkTransactOpts {
  From : Address;
  Nonce : option Z;
  SignerChainID : Z;
  Value : option Z;
  GasPrice : option Z;
  GasLimit : Z
}.

Record Account : Type := mkAccount {
  AccountPrivateKey : PrivateKey;
  AccountPublicKey : PublicKey;
  AccountAddress : Address;
  Auth : TransactOpts
}.

(** [bind.NewKeyedTransactorWithChainID(key, chainID)] for a non-nil
    [chainID]. *)
Definition NewKeyedTransactorWithChainID (key : PrivateKey) (chainID : Z)
  : TransactOpts :=
  mkTransactOpts (PubkeyToAddress (Public key)) None chainID None None 0.

Definition getAccount (privateKeyStr : string) (client : Client) : outcome Account :=
  match HexToECDSA privateKeyStr with
  | inr err => Fatal err
  | inl privateKey =>
      let publicKeyECDSA := Public privateKey in
      let address := PubkeyToAddress publicKeyECDSA in
      match NetworkID client with
      | inr err => Fatal err
      | inl chainID =>
          match SuggestGasPrice client with
          | inr err => Fatal err
          | inl gasPrice =>
              let auth := NewKeyedTransactorWithChainID privateKey chainID in
              let auth := mkTransactOpts (From auth) None (SignerChainID auth)
                            (Value auth) (GasPrice auth) (GasLimit auth) in
              let auth := mkTransactOpts (From auth) (Nonce auth) (SignerChainID auth)
                            (Some 0) (GasPrice auth) (GasLimit auth) in
              let auth := mkTransactOpts (From auth) (Nonce auth) (SignerChainID auth)
                            (Value auth) (GasPrice auth) 300000 in
              let auth := mkTransactOpts (From auth) (Nonce auth) (SignerChainID auth)
                            (Value auth) (Some gasPrice) (GasLimit auth) in
              Return (mkAccount privateKey publicKeyECDSA address auth)
          end
      end
  end.

End AccountSigner.

Arguments From {Address} t.
Arguments Nonce {Address} t.
Arguments SignerChainID {Address} t.
Arguments Value {Address} t.
Arguments GasPrice {Address} t.
Arguments GasLimit {Address} t.
Arguments AccountAddress {PrivateKey PublicKey Address} a.
Arguments Auth {PrivateKey PublicKey Address} a.
Arguments getAccount {PrivateKey PublicKey Address} HexToECDSA Public PubkeyToAddress
  privateKeyStr client.

(** ** Orchestrator ([main.go], lines 76-85 and 168-240) *)

(** [getClient]: [dial] is the error of [ethclient.Dial]. *)
Definition getClient (dial : option error) : outcome unit :=
  match dial with
  | Some err => Fatal err
  | None => Return tt
  end.

(** [NewERC20token] ([IERC20Metadata.go], lines 100-106 and 136-142):
    [bindERC20token] fails when [abi.JSON] rejects the ABI document. *)
Definition NewERC20token (abiJSON : option error) : unit + error :=
  match abiJSON with
  | Some err => inr err
  | None => inl tt
  end.

(** [ERC20tokenCaller.Decimals] ([IERC20Metadata.go], lines 247-259): the
    zero [uint8] next to the error. *)
Definition Decimals (call : CallResult) : Z * option error :=
  match call with
  | CallErr err => (0, Some err)
  | CallOk out0 => (out0, None)
  end.

(** How a run of [main] ends. *)
Inductive ending : Type :=
| Completed                 (* main returns *)
| Exited (msg : string)     (* log.Fatal *)
| Panicked (msg : string)
| Blocked                   (* a confirmation wait never returns *)
| Exhausted.                (* recursion bound of the embedding reached *)

Section Orchestrator.

Variables PrivateKey PublicKey Address : Type.
Variable HexToECDSA : string -> PrivateKey + error.
Variable Public : PrivateKey -> PublicKey.
Variable PubkeyToAddress : PublicKey -> Address.

Inductive param : Type :=
| PAddress (a : Address)
| PUint256 (v : Z).

(** A call [contract.Transact(opts, method, params...)]. *)
Record Transact : Type := mkTransact {
  transactOpts : TransactOpts Address;
  transactMethod : string;
  transactParams : list param
}.

(** The three paid bindings ([IERC20Metadata.go], lines 371-415). *)
Definition Approve (opts : TransactOpts Address) (spender : Address) (amount : Z)
  : Transact :=
  mkTransact opts "approve" [PAddress spender; PUint256 amount].

Definition Transfer (opts : TransactOpts Address) (to : Address) (amount : Z)
  : Transact :=
  mkTransact opts "transfer" [PAddress to; PUint256 amount].

Definition TransferFrom (opts : TransactOpts Address) (from to : Address) (amount : Z)
  : Transact :=
  mkTransact opts "transferFrom" [PAddress from; PAddress to; PUint256 amount].

(** What the environment of one run answers. *)
Record World : Type := mkWorld {
  DEPLOYER_PRIVATE_KEY : string;                 (* os.Getenv *)
  USER_PRIVATE_KEY : string;
  dial : option error;                           (* ethclient.Dial *)
  deployerQueries : Client;                      (* node replies in getAccount(cfg.PrivateKey) *)
  userQueries : Client;                          (* node replies in getAccount(cfg.UserPrivateKey) *)
  abiJSON : option error;
  decimalsCall : CallResult;
  balanceCalls : nat -> CallResult;              (* the six balanceOf reads, in order *)
  transactReplies : nat -> string + error;       (* the three submissions: hash or error *)
  subscriptions : nat -> option error * list Waiter.event   (* the three waits *)
}.

(** What a run of [main] does: the calls of [contract.Transact] made, in
    order, and the way the run ends.  Console output is not part of it. *)
Definition execution : Type := (list Transact * ending)%type.

Definition andThen {A : Type} (o : outcome A) (k : A -> execution) : execution :=
  match o with
  | Return a => k a
  | Panic msg => ([], Panicked msg)
  | Fatal msg => ([], Exited msg)
  | OutOfFuel => ([], Exhausted)
  end.

(** [tx, err := tokenInstance.M(...)] followed by
    [if err != nil { log.Fatal(err) }]. *)
Definition submit (call : Transact) (reply : string + error) (k : string -> execution) : execution :=
  match reply with
  | inr err => ([call], Exited err)
  | inl hash => let '(calls, e) := k hash in (call :: calls, e)
  end.

(** The call of [WaitForBlockCompletion] on the transaction's hash, its
    result dropped. *)
Definition await (subscription : option error * list Waiter.event) (k : execution) : execution :=
  andThen (Waiter.WaitForBlockCompletion (fst subscription) (snd subscription))
    (fun s => match Waiter.result s with
              | Some _ => k
              | None => ([], Blocked)
              end).

Definition main (w : World) : execution :=
  andThen (getClient (dial w)) (fun _ =>
  andThen (getAccount HexToECDSA Public PubkeyToAddress
             (DEPLOYER_PRIVATE_KEY w) (deployerQueries w)) (fun deployer =>
  andThen (getAccount HexToECDSA Public PubkeyToAddress
             (USER_PRIVATE_KEY w) (userQueries w)) (fun user =>
  andThen (match NewERC20token (abiJSON w) with
           | inr err => Fatal err
           | inl tokenInstance => Return tokenInstance
           end) (fun _ =>
  andThen (match Decimals (decimalsCall w) with
           | (_, Some err) => Fatal err
           | (decimals, None) => Return decimals
           end) (fun decimals =>
  andThen (showBalances (balanceCalls w 0%nat) (balanceCalls w 1%nat) decimals) (fun _ =>
  andThen (ToWei (IFloat64 (decimal.float64_of_int 100)) decimals) (fun amount =>
  submit (Transfer (Auth deployer) (AccountAddress user) amount)
         (transactReplies w 0%nat) (fun _ =>
  await (subscriptions w 0%nat) (
  andThen (showBalances (balanceCalls w 2%nat) (balanceCalls w 3%nat) decimals) (fun _ =>
  submit (Approve (Auth user) (AccountAddress deployer) amount)
         (transactReplies w 1%nat) (fun _ =>
  await (subscriptions w 1%nat) (
  andThen (ToWei (IFloat64 (decimal.float64_of_int 10)) decimals) (fun amount =>
  submit (TransferFrom (Auth deployer) (AccountAddress user) (AccountAddress deployer) amount)
         (transactReplies w 2%nat) (fun _ =>
  await (subscriptions w 2%nat) (
  andThen (showBalances (balanceCalls w 4%nat) (balanceCalls w 5%nat) decimals) (fun _ =>
  ([], Completed))))))))))))))))).

End Orchestrator.

Arguments PAddress {Address} a.
Arguments PUint256 {Address} v.
Arguments mkTransact {Address} transactOpts transactMethod transactParams.
Arguments transactOpts {Address} t.
Arguments transactMethod {Address} t.
Arguments transactParams {Address} t.
Arguments Approve {Address} opts spender amount.
Arguments Transfer {Address} opts to amount.
Arguments TransferFrom {Address} opts from to amount.
Arguments andThen {Address A} o k.
Arguments submit {Address} call reply k.
Arguments await {Address} subscription k.
Arguments main {PrivateKey PublicKey Address} HexToECDSA Public PubkeyToAddress w.

(** ** Log iterators ([IERC20Metadata.go], lines 432-496 and 586-650)

    [ERC20tokenApprovalIterator] and [ERC20tokenTransferIterator] have the
    same code up to the event type; [Event] stands for either. *)

Module LogIterator.

Section Iterator.

Variables Log Event : Type.
(** [new(ERC20tokenApproval)] *)
Variable newEvent : Event.
(** [contract.UnpackLog(it.Event, it.event, log)]: the struct after the
    call and the error. *)
Variable UnpackLog : Event -> Log -> Event * option error.
(** [it.Event.Raw = log] *)
Variable setRaw : Event -> Log -> Event.

Record Iterator : Type := mkIterator {
  itEvent : option Event;      (* nil until a log was received *)
  done : bool;
  fail : option error;
  unsubscribes : nat           (* calls of it.sub.Unsubscribe *)
}.

(** What the channel operations of one call of [Next] would receive:
    [onSelect] the blocking [select] over [it.logs] and [it.sub.Err()],
    [onPoll] the [select] over [it.logs] with a [default]. *)
Record received : Type := mkReceived {
  onSelect : Log + option error;
  onPoll : option Log
}.

(** The body both [case log := <-it.logs] branches share. *)
Definition deliver (it : Iterator) (log : Log) : Iterator * bool :=
  let '(ev, err) := UnpackLog newEvent log in
  match err with
  | Some e => (mkIterator (Some ev) (done it) (Some e) (unsubscribes it), false)
  | None => (mkIterator (Some (setRaw ev log)) (done it) (fail it) (unsubscribes it), true)
  end.

(** The [if it.done { select { ... default: ... } }] branch. *)
Definition drain (it : Iterator) (poll : option Log) : Iterator * bool :=
  match poll with
  | Some log => deliver it log
  | None => (it, false)
  end.

(** [it.Next()].  The call [it.Next()] in the error case runs with
    [done] set, so it ends in one of the first two branches. *)
Definition Next (it : Iterator) (ch : received) : Iterator * bool :=
  match fail it with
  | Some _ => (it, false)
  | None =>
      if done it then drain it (onPoll ch)
      else
        match onSelect ch with
        | inl log => deliver it log
        | inr err =>
            let it' := mkIterator (itEvent it) true err (unsubscribes it) in
            match err with
            | Some _ => (it', false)
            | None => drain it' (onPoll ch)
            end
        end
  end.

(** [it.Error()] *)
Definition Error (it : Iterator) : option error := fail it.

(** [it.Close()] *)
Definition Close (it : Iterator) : Iterator * option error :=
  (mkIterator (itEvent it) (done it) (fail it) (S (unsubscribes it)), None).

(** [ParseApproval(log)] / [ParseTransfer(log)] (lines 576-583, 730-737) *)
Definition Parse (log : Log) : option Event * option error :=
  let '(ev, err) := UnpackLog newEvent log in
  match err with
  | Some e => (None, Some e)
  | None => (Some (setRaw ev log), None)
  end.

(** [FilterApproval] / [FilterTransfer] (lines 509-525, 663-679) after
    [contract.FilterLogs] returned [err]. *)
Definition Filter (err : option error) : option Iterator * option error :=
  match err with
  | Some e => (None, Some e)
  | None => (Some (mkIterator None false None 0), None)
  end.

(** Successive calls of [Next]; the results, first call first. *)
Fixpoint Nexts (it : Iterator) (chs : list received) : Iterator * list bool :=
  match chs with
  | [] => (it, [])
  | ch :: rest =>
      let '(it1, b) := Next it ch in
      let '(it2, bs) := Nexts it1 rest in
      (it2, b :: bs)
  end.

End Iterator.

Arguments mkIterator {Event} itEvent done fail unsubscribes.
Arguments itEvent {Event} i.
Arguments done {Event} i.
Arguments fail {Event} i.
Arguments unsubscribes {Event} i.
Arguments mkReceived {Log} onSelect onPoll.
Arguments onSelect {Log} r.
Arguments onPoll {Log} r.
Arguments deliver {Log Event} newEvent UnpackLog setRaw it log.
Arguments drain {Log Event} newEvent UnpackLog setRaw it poll.
Arguments Next {Log Event} newEvent UnpackLog setRaw it ch.
Arguments Nexts {Log Event} newEvent UnpackLog setRaw it chs.
Arguments Parse {Log Event} newEvent UnpackLog setRaw log.
Arguments Error {Event} it.
Arguments Close {Event} it.
Arguments Filter {Event} err.

End LogIterator.

(** * Vocabulary of the statements *)

Module Digits.

Fixpoint all_digits (s : string) : bool :=
  match s with
  | EmptyString => true
  | String c r =>
      match big.digit c with
      | Some _ => all_digits r
      | None => false
      end
  end.

(** Value of the digit prefix of [s], continuing from [acc]. *)
Fixpoint digits_val (s : string) (acc : N) : N :=
  match s with
  | EmptyString => acc
  | String c r =>
      match big.digit c with
      | Some d => digits_val r (acc * 10 + d)%N
      | None => acc
      end
  end.

Definition len (s : string) : N := N.of_nat (String.length s).

(** A string [scan] does not enter: empty, or starting with a byte that
    is no digit. *)
Definition stops (s : string) : Prop :=
  match s with
  | EmptyString => True
  | String c _ => big.digit c = None
  end.

End Digits.

(** The integer part of [v * 10^x], cut toward zero. *)
Definition trunc10 (v x : Z) : Z :=
  if 0 <=? x then v * 10 ^ x else Z.quot v (10 ^ (- x)).

(** [a / b] rounded to the nearest integer, a tie going away from zero. *)
Definition roundHalfAway (a b : Z) : Z :=
  let q := Z.quot a b in
  let r := Z.rem a b in
  if 2 * Z.abs r <? b then q else if a <? 0 then q - 1 else q + 1.

(** [a / 10^d] in units of [10^-16]. *)
Definition quotient16 (a d : Z) : Z :=
  if d <=? 16 then a * 10 ^ (16 - d) else roundHalfAway a (10 ^ (d - 16)).

(** [a / 10^d] needs no more than 16 fractional digits. *)
Definition fits16 (a d : Z) : Prop := d <= 16 \/ Z.rem a (10 ^ (d - 16)) = 0.

(** [toWei(toDecimal(a, d), d)] *)
Definition roundTrip (a d : Z) : outcome Z :=
  r <- ToDecimal (IBigInt (Some a)) d ;; ToWei (IDecimal r) d.

(** [toDecimal(toWei(x, d), d)] *)
Definition roundTripDecimal (x : decimal.Decimal) (d : Z) : outcome decimal.Decimal :=
  w <- ToWei (IDecimal x) d ;; ToDecimal (IBigInt (Some w)) d.

(** The dynamic types [ToDecimal] has no case for. *)
Definition unhandled (ivalue : iface) : Prop :=
  match ivalue with
  | IString _ | IBigInt _ => False
  | _ => True
  end.

(** [tenPow] gives the decimal [1 * 10^n] at exponent [n]. *)
Definition is_tenPow (n : nat) : bool :=
  match tenPow (Z.of_nat n) with
  | Return r => (decimal.value r =? 1) && (decimal.exp r =? Z.of_nat n)
  | _ => false
  end.

(** * Properties *)

(** ** Digit strings *)

Module DigitFacts.

Import Digits.

Lemma digit_bound c d : big.digit c = Some d -> (d < 10)%N.
Proof.
  unfold big.digit.
  destruct (48 <=? N_of_ascii c)%N eqn:H1; [|discriminate].
  destruct (N_of_ascii c <=? 57)%N eqn:H2; [|discriminate].
  simpl. intros [= <-].
  apply N.leb_le in H1, H2. lia.
Qed.

Lemma digit_not (c x : ascii) :
  big.digit x = None -> forall d, big.digit c = Some d -> Ascii.eqb c x = false.
Proof.
  intros Hx d Hc. destruct (Ascii.eqb_spec c x) as [->|]; congruence.
Qed.

Lemma append_nil_r s : s ++ "" = s.
Proof. induction s; simpl; congruence. Qed.

Lemma append_assoc (a b c : string) : (a ++ b) ++ c = a ++ (b ++ c).
Proof. induction a; simpl; congruence. Qed.

Lemma length_append (a b : string) :
  String.length (a ++ b) = (String.length a + String.length b)%nat.
Proof. induction a; simpl; congruence. Qed.

Lemma take_drop n s : strings.take n s ++ strings.drop n s = s.
Proof.
  revert s; induction n; intros [|c r]; simpl; try reflexivity.
  now rewrite IHn.
Qed.

Lemma length_drop n s :
  String.length (strings.drop n s) = (String.length s - n)%nat.
Proof.
  revert s; induction n; intros [|c r]; simpl; try reflexivity.
  apply IHn.
Qed.

Lemma length_take n s :
  String.length (strings.take n s) = Nat.min n (String.length s).
Proof.
  revert s; induction n; intros [|c r]; simpl; try reflexivity.
  now rewrite IHn.
Qed.

Lemma all_digits_app a b :
  all_digits (a ++ b) = (all_digits a && all_digits b)%bool.
Proof.
  induction a as [|c r IH]; simpl; [reflexivity|].
  destruct (big.digit c); [exact IH|reflexivity].
Qed.

Lemma all_digits_take n s : all_digits s = true -> all_digits (strings.take n s) = true.
Proof.
  intros H. rewrite <- (take_drop n s), all_digits_app in H.
  now apply andb_true_iff in H.
Qed.

Lemma all_digits_drop n s : all_digits s = true -> all_digits (strings.drop n s) = true.
Proof.
  intros H. rewrite <- (take_drop n s), all_digits_app in H.
  now apply andb_true_iff in H.
Qed.

Lemma digits_val_app a b acc :
  all_digits a = true -> digits_val (a ++ b) acc = digits_val b (digits_val a acc).
Proof.
  revert acc; induction a as [|c r IH]; intros acc; simpl; [reflexivity|].
  destruct (big.digit c); [apply IH|discriminate].
Qed.

Lemma len_cons c r : len (String c r) = N.succ (len r).
Proof. unfold len. cbn [String.length]. apply Nat2N.inj_succ. Qed.

Lemma digits_val_acc s acc :
  all_digits s = true ->
  digits_val s acc = (acc * 10 ^ len s + digits_val s 0)%N.
Proof.
  revert acc; induction s as [|c r IH]; intros acc.
  - intros _. cbn. lia.
  - cbn [all_digits digits_val]. destruct (big.digit c) as [d|]; [|discriminate].
    intros H. rewrite (IH (acc * 10 + d)%N H).
    change (0 * 10 + d)%N with d. rewrite (IH d H).
    rewrite len_cons, N.pow_succ_r'. lia.
Qed.

Lemma digits_val_bound s :
  all_digits s = true -> (digits_val s 0 < 10 ^ len s)%N.
Proof.
  induction s as [|c r IH].
  - intros _. cbn. lia.
  - cbn [all_digits digits_val]. destruct (big.digit c) as [d|] eqn:Hd; [|discriminate].
    intros H. change (0 * 10 + d)%N with d.
    rewrite (digits_val_acc r _ H).
    specialize (IH H). apply digit_bound in Hd.
    rewrite len_cons, N.pow_succ_r'. nia.
Qed.

(** [scan] reads a digit string to its end and stops at the first byte
    that is not a digit. *)
Lemma scan_digits a b acc count :
  all_digits a = true ->
  big.scan (a ++ b) acc count =
  big.scan b (digits_val a acc) (count + String.length a).
Proof.
  revert acc count; induction a as [|c r IH]; intros acc count; simpl.
  - intros _. now rewrite Nat.add_0_r.
  - destruct (big.digit c); [|discriminate]. intros H.
    rewrite (IH _ _ H). now rewrite Nat.add_succ_r.
Qed.

Lemma scan_stops s acc count : stops s -> big.scan s acc count = (acc, count, s).
Proof. destruct s as [|c r]; simpl; [reflexivity|]. now intros ->. Qed.

(** *** Digits printed by [utoa] *)

Lemma uint_all_digits u : all_digits (NilEmpty.string_of_uint u) = true.
Proof. induction u; simpl; auto. Qed.

Lemma uint_val_pos u p :
  digits_val (NilEmpty.string_of_uint u) (Npos p) = Npos (Pos.of_uint_acc u p).
Proof.
  revert p; induction u; intros p;
    cbn -[Pos.mul Pos.add N.mul N.add]; [reflexivity|..];
    rewrite <- IHu;
    match goal with
    | |- context [big.digit ?c] =>
        let v := eval vm_compute in (big.digit c) in
        change (big.digit c) with v
    end; cbv iota beta; f_equal; lia.
Qed.

Lemma uint_val u : digits_val (NilEmpty.string_of_uint u) 0 = Pos.of_uint u.
Proof.
  induction u; simpl; [reflexivity|exact IHu|..]; apply uint_val_pos.
Qed.

Lemma utoa_digits n : all_digits (big.utoa n) = true.
Proof. apply uint_all_digits. Qed.

Lemma utoa_val n : digits_val (big.utoa n) 0 = n.
Proof.
  unfold big.utoa. rewrite uint_val. exact (DecimalN.Unsigned.of_to n).
Qed.

Lemma utoa_nonempty n : exists c r, big.utoa n = String c r.
Proof.
  unfold big.utoa. destruct n as [|p]; [now exists "0"%char, EmptyString|].
  simpl. pose proof (DecimalPos.Unsigned.to_uint_nonnil p) as H.
  destruct (Pos.to_uint p); [congruence|..]; simpl; eauto.
Qed.

(** *** Parsing what [itoa] prints *)

Lemma scan_all s acc count :
  all_digits s = true ->
  big.scan s acc count = (digits_val s acc, (count + String.length s)%nat, "").
Proof.
  intros H. rewrite <- (append_nil_r s) at 1.
  now rewrite (scan_digits _ _ _ _ H).
Qed.

Lemma scanSign_digit c r d :
  big.digit c = Some d -> big.scanSign (String c r) = Some (false, String c r).
Proof.
  intros H. unfold big.scanSign.
  rewrite (digit_not c "-" eq_refl d H), (digit_not c "+" eq_refl d H).
  reflexivity.
Qed.

Lemma utoa_head n :
  exists c r d, big.utoa n = String c r /\ big.digit c = Some d.
Proof.
  destruct (utoa_nonempty n) as (c & r & E).
  pose proof (utoa_digits n) as H. rewrite E in H. cbn [all_digits] in H.
  destruct (big.digit c) as [d|] eqn:Hd; [|discriminate].
  now exists c, r, d.
Qed.

Lemma SetString_utoa z n : big.SetString z (big.utoa n) = (Z.of_N n, true).
Proof.
  destruct (utoa_head n) as (c & r & d & E & Hd).
  unfold big.SetString. rewrite E, (scanSign_digit c r d Hd), <- E.
  rewrite (scan_all _ _ _ (utoa_digits n)), utoa_val, E.
  reflexivity.
Qed.

Lemma SetString_itoa z a : big.SetString z (big.itoa a) = (a, true).
Proof.
  unfold big.itoa. destruct (Z.ltb_spec a 0) as [Ha|Ha].
  - destruct (utoa_head (Z.to_N (- a))) as (c & r & d & E & Hd).
    unfold big.SetString, big.scanSign.
    change (Ascii.eqb "-" "-") with true. cbv iota.
    rewrite (scan_all _ _ _ (utoa_digits _)), utoa_val, E.
    cbn [String.length Nat.add]. f_equal. lia.
  - rewrite SetString_utoa. f_equal. lia.
Qed.

Lemma ParseInt_utoa n bits :
  Z.of_N n < 2 ^ (bits - 1) -> strconv.ParseInt (big.utoa n) bits = Some (Z.of_N n).
Proof.
  intros Hn. destruct (utoa_head n) as (c & r & d & E & Hd).
  unfold strconv.ParseInt. rewrite E.
  rewrite (digit_not c "-" eq_refl d Hd), (digit_not c "+" eq_refl d Hd), <- E.
  rewrite (scan_all _ _ _ (utoa_digits n)), utoa_val, E.
  cbn [String.length Nat.add].
  destruct (Z.leb_spec (2 ^ (bits - 1)) (Z.of_N n)); [lia|reflexivity].
Qed.

Lemma ParseInt_itoa a bits :
  - 2 ^ (bits - 1) <= a < 2 ^ (bits - 1) ->
  strconv.ParseInt (big.itoa a) bits = Some a.
Proof.
  intros Ha. unfold big.itoa. destruct (Z.ltb_spec a 0) as [Hneg|Hpos].
  - destruct (utoa_head (Z.to_N (- a))) as (c & r & d & E & Hd).
    unfold strconv.ParseInt.
    change (Ascii.eqb "-" "+") with false. change (Ascii.eqb "-" "-") with true.
    cbv iota.
    rewrite (scan_all _ _ _ (utoa_digits _)), utoa_val, E.
    cbn [String.length Nat.add].
    destruct (Z.ltb_spec (2 ^ (bits - 1)) (Z.of_N (Z.to_N (- a)))); [lia|].
    f_equal. lia.
  - rewrite ParseInt_utoa by lia. f_equal. lia.
Qed.

(** [itoa] prints no exponent mark and no decimal point. *)
Lemma digits_plain s i :
  all_digits s = true -> strings.IndexAnyEe s = None /\ strings.dots i s = [].
Proof.
  revert i; induction s as [|c r IH]; intros i; [now split|].
  cbn [all_digits strings.IndexAnyEe strings.dots].
  destruct (big.digit c) as [d|] eqn:Hd; [|discriminate]. intros H.
  rewrite (digit_not c "E" eq_refl d Hd), (digit_not c "e" eq_refl d Hd),
    (digit_not c "." eq_refl d Hd).
  destruct (IH (S i) H) as [-> ->]. now split.
Qed.

Lemma itoa_plain a i :
  strings.IndexAnyEe (big.itoa a) = None /\ strings.dots i (big.itoa a) = [].
Proof.
  unfold big.itoa. destruct (a <? 0).
  - cbn [strings.IndexAnyEe strings.dots].
    change (Ascii.eqb "-" "E" || Ascii.eqb "-" "e")%bool with false.
    change (Ascii.eqb "-" ".") with false. cbv iota.
    destruct (digits_plain _ (S i) (utoa_digits (Z.to_N (- a)))) as [-> ->].
    now split.
  - apply digits_plain, utoa_digits.
Qed.

(** A printed integer of at most 18 bytes fits an [int64]. *)
Lemma itoa_short a :
  (String.length (big.itoa a) <= 18)%nat -> - 2 ^ 63 <= a < 2 ^ 63.
Proof.
  unfold big.itoa. destruct (Z.ltb_spec a 0) as [Hneg|Hpos]; intros Hlen.
  - pose proof (digits_val_bound _ (utoa_digits (Z.to_N (- a)))) as B.
    rewrite utoa_val in B. cbn [String.length] in Hlen.
    assert (len (big.utoa (Z.to_N (- a))) <= 18)%N by (unfold len; lia).
    assert (10 ^ len (big.utoa (Z.to_N (- a))) <= 10 ^ 18)%N
      by (apply N.pow_le_mono_r; lia).
    change (10 ^ 18)%N with 1000000000000000000%N in *.
    change (2 ^ 63) with 9223372036854775808. lia.
  - pose proof (digits_val_bound _ (utoa_digits (Z.to_N a))) as B.
    rewrite utoa_val in B.
    assert (len (big.utoa (Z.to_N a)) <= 18)%N by (unfold len; lia).
    assert (10 ^ len (big.utoa (Z.to_N a)) <= 10 ^ 18)%N
      by (apply N.pow_le_mono_r; lia).
    change (10 ^ 18)%N with 1000000000000000000%N in *.
    change (2 ^ 63) with 9223372036854775808. lia.
Qed.

Lemma NewFromString_itoa a :
  decimal.NewFromString (big.itoa a) = (decimal.mkDecimal a 0, None).
Proof.
  unfold decimal.NewFromString.
  destruct (itoa_plain a 0) as [-> ->].
  destruct (String.length (big.itoa a) <=? 18)%nat eqn:Hlen.
  - apply Nat.leb_le in Hlen. rewrite (ParseInt_itoa a 64 (itoa_short a Hlen)).
    reflexivity.
  - rewrite SetString_itoa. reflexivity.
Qed.

(** *** Parsing what [Decimal.String] prints *)

Lemma SetString_prefix z a rest :
  all_digits a = true -> a <> "" -> stops rest ->
  fst (big.SetString z (a ++ rest)) = Z.of_N (digits_val a 0).
Proof.
  intros Ha Hne Hrest. destruct a as [|c r]; [congruence|].
  pose proof Ha as Hc. cbn [all_digits] in Hc.
  destruct (big.digit c) as [d|] eqn:Hd; [|discriminate].
  unfold big.SetString. cbn [append].
  rewrite (scanSign_digit c _ d Hd).
  change (String c (r ++ rest)) with (String c r ++ rest).
  rewrite (scan_digits _ _ _ _ Ha), (scan_stops _ _ _ Hrest).
  reflexivity.
Qed.

Lemma SetString_neg_prefix z a rest :
  all_digits a = true -> a <> "" -> stops rest ->
  fst (big.SetString z (String "-" (a ++ rest))) = - Z.of_N (digits_val a 0).
Proof.
  intros Ha Hne Hrest. destruct a as [|c r]; [congruence|].
  unfold big.SetString, big.scanSign.
  change (Ascii.eqb "-" "-") with true. cbv iota.
  rewrite (scan_digits _ _ _ _ Ha), (scan_stops _ _ _ Hrest).
  reflexivity.
Qed.

Lemma take_val s m :
  all_digits s = true -> (m <= String.length s)%nat ->
  digits_val (strings.take m s) 0 =
  (digits_val s 0 / 10 ^ N.of_nat (String.length s - m))%N.
Proof.
  intros Hs Hm.
  pose proof (all_digits_take m s Hs) as Ht.
  pose proof (all_digits_drop m s Hs) as Hdr.
  pose proof (digits_val_bound _ Hdr) as B.
  assert (E : digits_val s 0 =
              (10 ^ len (strings.drop m s) * digits_val (strings.take m s) 0
               + digits_val (strings.drop m s) 0)%N).
  { rewrite <- (take_drop m s) at 1.
    rewrite (digits_val_app _ _ _ Ht), (digits_val_acc _ _ Hdr). lia. }
  unfold len in *. rewrite length_drop in *.
  eapply N.div_unique; eassumption.
Qed.

Lemma fractional_rest intPart fractionalPart :
  exists rest,
    stops rest /\
    match strings.trimRight0 fractionalPart with
    | EmptyString => intPart
    | String _ _ => intPart ++ "." ++ strings.trimRight0 fractionalPart
    end = intPart ++ rest.
Proof.
  destruct (strings.trimRight0 fractionalPart) as [|c r].
  - exists "". split; [exact I|]. now rewrite append_nil_r.
  - exists ("." ++ String c r). split; [reflexivity|reflexivity].
Qed.

Lemma quot_abs v k :
  0 < k ->
  (if v <? 0 then - (Z.abs v / k) else Z.abs v / k) = Z.quot v k.
Proof.
  intros Hk. destruct (Z.ltb_spec v 0) as [Hv|Hv].
  - rewrite Z.abs_neq by lia.
    rewrite <- (Z.quot_div_nonneg (- v) k) by lia.
    rewrite Z.quot_opp_l by lia. lia.
  - rewrite Z.abs_eq by lia. symmetry. apply Z.quot_div_nonneg; lia.
Qed.

(** Reading the printed form of a decimal back into a [big.Int] keeps
    the integer part and drops the fraction. *)
Lemma SetString_String z v e :
  fst (big.SetString z (decimal.String (decimal.mkDecimal v e))) = trunc10 v e.
Proof.
  unfold decimal.String, trunc10. cbn [decimal.exp decimal.value].
  destruct (Z.leb_spec 0 e) as [He|He].
  - unfold decimal.rescale. cbn [decimal.exp decimal.value].
    destruct (Z.eqb_spec e 0) as [->|Hne].
    + cbn [decimal.value]. rewrite SetString_itoa. cbn. lia.
    + destruct (Z.ltb_spec e 0); [lia|]. cbn [decimal.value].
      rewrite SetString_itoa. cbn [fst].
      now replace (Z.abs (0 - e)) with e by lia.
  - set (n := Z.to_N (Z.abs v)).
    assert (Hitoa : big.itoa (Z.abs v) = big.utoa n).
    { unfold big.itoa. destruct (Z.ltb_spec (Z.abs v) 0); [lia|reflexivity]. }
    rewrite Hitoa.
    pose proof (utoa_digits n) as Hd. pose proof (utoa_val n) as Hv.
    pose proof (digits_val_bound _ Hd) as Hb. rewrite Hv in Hb.
    destruct (utoa_nonempty n) as (c0 & r0 & Hne).
    set (str := big.utoa n) in *.
    set (L := String.length str) in *.
    assert (HL : (1 <= L)%nat) by (subst L; rewrite Hne; cbn; lia).
    assert (Hint : exists intPart fractionalPart,
               (if - e <? Z.of_nat L
                then (strings.take (Z.to_nat (Z.of_nat L + e)) str,
                      strings.drop (Z.to_nat (Z.of_nat L + e)) str)
                else ("0", strings.Repeat0 (Z.to_nat (- e - Z.of_nat L)) ++ str))
               = (intPart, fractionalPart) /\
               all_digits intPart = true /\ intPart <> "" /\
               Z.of_N (digits_val intPart 0) = Z.abs v / 10 ^ (- e)).
    { assert (HnZ : Z.of_N n = Z.abs v) by (subst n; lia).
      destruct (Z.ltb_spec (- e) (Z.of_nat L)) as [Hlt|Hge].
      - eexists _, _. split; [reflexivity|].
        split; [now apply all_digits_take|].
        split.
        + intros E. apply (f_equal String.length) in E.
          rewrite length_take in E. cbn [String.length] in E. fold L in E.
          clearbody L. clear - E Hlt HL. lia.
        + rewrite take_val by (try assumption; fold L; clear - He Hlt; lia).
          fold L. rewrite Hv.
          rewrite N2Z.inj_div, N2Z.inj_pow, HnZ. do 2 f_equal. lia.
      - eexists _, _. split; [reflexivity|].
        split; [reflexivity|]. split; [discriminate|].
        cbn. symmetry. apply Z.div_small. split; [lia|].
        rewrite <- HnZ.
        assert (Z.of_N (10 ^ len str) <= 10 ^ (- e)).
        { rewrite N2Z.inj_pow. apply Z.pow_le_mono_r; [lia|].
          unfold len. fold L. lia. }
        lia. }
    destruct Hint as (intPart & fractionalPart & -> & Hi & Hine & Hval).
    destruct (fractional_rest intPart fractionalPart) as (rest & Hrest & ->).
    rewrite <- (quot_abs v (10 ^ (- e))) by (apply Z.pow_pos_nonneg; lia).
    destruct (v <? 0).
    + cbn [append]. rewrite SetString_neg_prefix by assumption. now rewrite Hval.
    + rewrite SetString_prefix by assumption. exact Hval.
Qed.

End DigitFacts.

(** ** The scaling factor *)

Module ConverterFacts.

Import DigitFacts.

Lemma tenPow_table : forallb is_tenPow (seq 0 256) = true.
Proof. vm_compute. reflexivity. Qed.

(** For every exponent a token can report (a [uint8]), the scaling
    factor is the decimal [1 * 10^decimals]. *)
Lemma tenPow_spec d :
  0 <= d <= 255 -> tenPow d = Return (decimal.mkDecimal 1 d).
Proof.
  intros Hd. pose proof tenPow_table as T.
  rewrite forallb_forall in T. specialize (T (Z.to_nat d)).
  unfold is_tenPow in T. rewrite Z2Nat.id in T by lia.
  destruct (tenPow d) as [[v e]| | |];
    try (exfalso; discriminate T; apply in_seq; lia).
  cbn [decimal.value decimal.exp] in T.
  assert (H : (v =? 1) && (e =? d) = true) by (apply T, in_seq; lia).
  apply andb_true_iff in H. destruct H as [H1 H2].
  apply Z.eqb_eq in H1, H2. now subst.
Qed.

(** [ToWei] on a decimal: the product with the scaling factor, printed
    and read back up to the decimal point. *)
Lemma ToWei_Decimal v e d :
  0 <= d <= 255 ->
  decimal.MinInt32 <= e + d <= decimal.MaxInt32 ->
  ToWei (IDecimal (decimal.mkDecimal v e)) d = Return (trunc10 v (e + d)).
Proof.
  intros Hd He. unfold ToWei. cbn [decimal.NewFromFloat decimal.float64_of_int bind].
  rewrite (tenPow_spec d Hd). cbn [bind].
  unfold decimal.Mul. cbn [decimal.value decimal.exp].
  destruct (Z.ltb_spec decimal.MaxInt32 (e + d)); [lia|].
  destruct (Z.ltb_spec (e + d) decimal.MinInt32); [lia|].
  cbn [orb bind]. rewrite SetString_String. now rewrite Z.mul_1_r.
Qed.

(** *** Division by the scaling factor *)

(** Up to [DivisionPrecision] fractional digits the quotient is exact. *)
Lemma Div_exact a d :
  0 <= d <= 16 ->
  decimal.Div (decimal.mkDecimal a 0) (decimal.mkDecimal 1 d) =
  Return (decimal.mkDecimal (a * 10 ^ (16 - d)) (-16)).
Proof.
  intros Hd. unfold decimal.Div, decimal.DivRound, decimal.QuoRem,
    decimal.DivisionPrecision.
  cbn [decimal.value decimal.exp]. change (1 =? 0) with false. cbv iota.
  change (Z.opp 16) with (-16).
  replace (0 - d - - 16) with (16 - d) by lia.
  destruct (Z.ltb_spec decimal.MaxInt32 (16 - d));
    [unfold decimal.MaxInt32 in *; lia|].
  destruct (Z.ltb_spec (16 - d) decimal.MinInt32);
    [unfold decimal.MinInt32 in *; lia|].
  cbn [orb]. destruct (Z.ltb_spec (16 - d) 0); [lia|].
  cbn [bind decimal.value decimal.exp].
  rewrite Z.quot_1_r, Z.rem_1_r. change (Z.abs 0) with 0.
  change (Z.shiftl 0 1) with 0.
  unfold decimal.Cmp, decimal.RescalePair, decimal.Abs.
  cbn [decimal.value decimal.exp].
  replace (-16 + d + 16) with d by lia. rewrite Z.eqb_refl.
  cbn [decimal.value]. reflexivity.
Qed.

(** Beyond them it is rounded, a tie going away from zero. *)
Lemma Div_rounds a d :
  16 < d <= 255 ->
  decimal.Div (decimal.mkDecimal a 0) (decimal.mkDecimal 1 d) =
  Return (decimal.mkDecimal (roundHalfAway a (10 ^ (d - 16))) (-16)).
Proof.
  intros Hd. unfold decimal.Div, decimal.DivRound, decimal.QuoRem,
    decimal.DivisionPrecision.
  cbn [decimal.value decimal.exp]. change (1 =? 0) with false. cbv iota.
  change (Z.opp 16) with (-16).
  replace (0 - d - - 16) with (16 - d) by lia.
  destruct (Z.ltb_spec decimal.MaxInt32 (16 - d));
    [unfold decimal.MaxInt32 in *; lia|].
  destruct (Z.ltb_spec (16 - d) decimal.MinInt32);
    [unfold decimal.MinInt32 in *; lia|].
  cbn [orb]. destruct (Z.ltb_spec (16 - d) 0); [|lia].
  cbn [bind decimal.value decimal.exp].
  replace (- (16 - d)) with (d - 16) by lia. rewrite Z.mul_1_l.
  set (bb := 10 ^ (d - 16)).
  assert (Hbb : 0 < bb) by (apply Z.pow_pos_nonneg; lia).
  unfold decimal.Cmp, decimal.RescalePair, decimal.Abs.
  cbn [decimal.value decimal.exp]. change (0 + 16) with 16.
  destruct (Z.eqb_spec 16 d); [lia|].
  replace (Z.min 16 d) with 16 by lia. rewrite Z.eqb_refl. cbn [negb].
  unfold decimal.rescale. cbn [decimal.value decimal.exp].
  destruct (Z.eqb_spec d 16); [lia|]. destruct (Z.ltb_spec d 16); [lia|].
  cbn [decimal.value]. change (Z.abs 1) with 1. rewrite Z.mul_1_l.
  replace (Z.abs (16 - d)) with (d - 16) by lia. fold bb.
  rewrite Z.shiftl_mul_pow2 by lia. change (2 ^ 1) with 2.
  unfold roundHalfAway.
  replace (Z.abs (Z.rem a bb) * 2) with (2 * Z.abs (Z.rem a bb)) by lia.
  destruct (Z.compare_spec (2 * Z.abs (Z.rem a bb)) bb) as [E|L|G].
  - destruct (Z.ltb_spec (2 * Z.abs (Z.rem a bb)) bb); [lia|].
    change (0 <? 0) with false. cbv iota.
    change (Z.sgn 1) with 1. rewrite Z.mul_1_r.
    unfold decimal.Sub, decimal.Add, decimal.New, decimal.RescalePair.
    cbn [decimal.value decimal.exp]. change (-16 =? -16) with true. cbv iota.
    cbn [decimal.value decimal.exp].
    destruct (Z.ltb_spec (Z.sgn a) 0), (Z.ltb_spec a 0); try reflexivity; lia.
  - destruct (Z.ltb_spec (2 * Z.abs (Z.rem a bb)) bb); [|lia]. reflexivity.
  - destruct (Z.ltb_spec (2 * Z.abs (Z.rem a bb)) bb); [lia|].
    change (1 <? 0) with false. cbv iota.
    change (Z.sgn 1) with 1. rewrite Z.mul_1_r.
    unfold decimal.Sub, decimal.Add, decimal.New, decimal.RescalePair.
    cbn [decimal.value decimal.exp]. change (-16 =? -16) with true. cbv iota.
    cbn [decimal.value decimal.exp].
    destruct (Z.ltb_spec (Z.sgn a) 0), (Z.ltb_spec a 0); try reflexivity; lia.
Qed.

(** The rounded quotient is within half a unit of the exact one, and
    equals it exactly when the division leaves no remainder. *)
Lemma roundHalfAway_spec a b :
  0 < b ->
  2 * Z.abs (roundHalfAway a b * b - a) <= b /\
  (roundHalfAway a b * b = a <-> Z.rem a b = 0).
Proof.
  intros Hb. unfold roundHalfAway.
  pose proof (Z.quot_rem' a b) as E.
  pose proof (Z.rem_bound_abs a b ltac:(lia)) as B.
  assert (S : a < 0 -> Z.rem a b <= 0)
    by (intros; apply Z.rem_nonpos; lia).
  assert (T : 0 <= a -> 0 <= Z.rem a b)
    by (intros; apply Z.rem_nonneg; lia).
  destruct (Z.ltb_spec (2 * Z.abs (Z.rem a b)) b).
  - split; [|split; intros]; nia.
  - destruct (Z.ltb_spec a 0); (split; [|split; intros]); nia.
Qed.

(** A base-10 string of an integer is converted like the integer. *)
Lemma ToDecimal_String s d :
  ToDecimal (IString s) d = ToDecimal (IBigInt (Some (fst (big.SetString 0 s)))) d.
Proof. reflexivity. Qed.

(** *** What [NewFromString] hands back *)

Ltac break_match :=
  match goal with
  | |- context [match ?x with _ => _ end] => destruct x eqn:?
  | |- context [if ?x then _ else _] => destruct x eqn:?
  end.

(** On an error the decimal next to it is [Decimal{}]. *)
Lemma NewFromString_error s :
  snd (decimal.NewFromString s) <> None -> fst (decimal.NewFromString s) = decimal.Zero.
Proof.
  unfold decimal.NewFromString. repeat break_match; cbn [fst snd]; congruence.
Qed.

(** Without an error the exponent fits an [int32]. *)
Lemma NewFromString_exp s v e :
  decimal.NewFromString s = (decimal.mkDecimal v e, None) ->
  decimal.MinInt32 <= e <= decimal.MaxInt32.
Proof.
  unfold decimal.NewFromString. repeat break_match; try discriminate;
    intros [= <- <-];
    match goal with
    | H : (_ || _)%bool = false |- _ =>
        apply orb_false_iff in H; destruct H as [H1 H2];
        apply Z.ltb_ge in H1, H2; lia
    end.
Qed.

Lemma ToWei_String s d :
  ToWei (IString s) d = ToWei (IDecimal (fst (decimal.NewFromString s))) d.
Proof. reflexivity. Qed.

(** *** The value of a decimal as a rational *)

Lemma toQ_scale v e k :
  0 <= k ->
  (decimal.toQ (decimal.mkDecimal (v * 10 ^ k) (e - k))
   == decimal.toQ (decimal.mkDecimal v e))%Q.
Proof.
  intros Hk. unfold decimal.toQ. cbn [decimal.value decimal.exp].
  rewrite inject_Z_mult, (Zpower_Qpower 10 k Hk), <- Qmult_assoc.
  change (inject_Z 10) with (10 : Q).
  rewrite <- Qpower_plus by discriminate.
  now replace (k + (e - k)) with e by lia.
Qed.

Lemma Div_scaled a d :
  0 <= d <= 255 ->
  decimal.Div (decimal.mkDecimal a 0) (decimal.mkDecimal 1 d) =
  Return (decimal.mkDecimal (quotient16 a d) (-16)).
Proof.
  intros Hd. unfold quotient16. destruct (Z.leb_spec d 16).
  - apply Div_exact; lia.
  - apply Div_rounds; lia.
Qed.

Lemma ToDecimal_scaled a d :
  0 <= d <= 255 ->
  ToDecimal (IBigInt (Some a)) d = Return (decimal.mkDecimal (quotient16 a d) (-16)).
Proof.
  intros Hd. unfold ToDecimal. rewrite tenPow_spec by lia.
  cbn [bind big.String]. rewrite NewFromString_itoa. cbn [fst].
  now apply Div_scaled.
Qed.

(** The quotient is within half a unit of the sixteenth digit. *)
Lemma quotient16_bound a d :
  0 <= d -> 2 * Z.abs (quotient16 a d * 10 ^ d - a * 10 ^ 16) <= 10 ^ d.
Proof.
  intros Hd. unfold quotient16. destruct (Z.leb_spec d 16).
  - rewrite <- Z.mul_assoc, <- Z.pow_add_r by lia.
    replace (16 - d + d) with 16 by lia. rewrite Z.sub_diag.
    pose proof (Z.pow_pos_nonneg 10 d). cbn [Z.abs]. lia.
  - assert (Hb : 0 < 10 ^ (d - 16)) by (apply Z.pow_pos_nonneg; lia).
    destruct (roundHalfAway_spec a _ Hb) as [B _].
    assert (E10 : 10 ^ d = 10 ^ (d - 16) * 10 ^ 16)
      by (rewrite <- Z.pow_add_r by lia; f_equal; lia).
    rewrite E10.
    set (bb := 10 ^ (d - 16)) in *. set (q := roundHalfAway a bb) in *.
    replace (q * (bb * 10 ^ 16) - a * 10 ^ 16) with ((q * bb - a) * 10 ^ 16) by ring.
    rewrite Z.abs_mul. change (Z.abs (10 ^ 16)) with (10 ^ 16). nia.
Qed.

(** It is exact precisely when 16 fractional digits are enough. *)
Lemma quotient16_exact a d :
  0 <= d -> quotient16 a d * 10 ^ d = a * 10 ^ 16 <-> fits16 a d.
Proof.
  intros Hd. unfold quotient16, fits16. destruct (Z.leb_spec d 16).
  - rewrite <- Z.mul_assoc, <- Z.pow_add_r by lia.
    replace (16 - d + d) with 16 by lia. tauto.
  - assert (Hb : 0 < 10 ^ (d - 16)) by (apply Z.pow_pos_nonneg; lia).
    destruct (roundHalfAway_spec a _ Hb) as [_ E].
    assert (E10 : 10 ^ d = 10 ^ (d - 16) * 10 ^ 16)
      by (rewrite <- Z.pow_add_r by lia; f_equal; lia).
    rewrite E10, Z.mul_assoc, <- E. split.
    + intros H'. right. apply Z.mul_cancel_r in H'; [exact H'|].
      apply Z.pow_nonzero; lia.
    + intros [H'|H']; [lia|]. now rewrite H'.
Qed.

Lemma toQ_div a d :
  (decimal.toQ (decimal.mkDecimal a (- d)) == inject_Z a / 10 ^ d)%Q.
Proof.
  unfold decimal.toQ, Qdiv. cbn [decimal.value decimal.exp].
  now rewrite Qpower_opp.
Qed.

Lemma toQ_inj v w e :
  (decimal.toQ (decimal.mkDecimal v e) == decimal.toQ (decimal.mkDecimal w e))%Q ->
  v = w.
Proof.
  unfold decimal.toQ. cbn [decimal.value decimal.exp]. intros H.
  apply Qmult_inj_r in H.
  - exact (proj1 (inject_Z_injective v w) H).
  - apply Qpower_not_0. discriminate.
Qed.

Lemma toQ_quotient16 a d :
  0 <= d ->
  (decimal.toQ (decimal.mkDecimal (quotient16 a d) (-16)) == inject_Z a / 10 ^ d)%Q
  <-> fits16 a d.
Proof.
  intros Hd. rewrite <- quotient16_exact by assumption.
  rewrite <- toQ_div.
  rewrite <- (toQ_scale (quotient16 a d) (-16) d Hd).
  rewrite <- (toQ_scale a (- d) 16 ltac:(lia)).
  replace (- d - 16) with (-16 - d) by lia.
  split; [apply toQ_inj|intros ->; reflexivity].
Qed.

Lemma quotient16_zero d : quotient16 0 d = 0.
Proof.
  unfold quotient16, roundHalfAway. destruct (Z.leb_spec d 16); [reflexivity|].
  assert (Hb : 0 < 10 ^ (d - 16)) by (apply Z.pow_pos_nonneg; lia).
  rewrite Z.quot_0_l, Z.rem_0_l by lia. change (2 * Z.abs 0) with 0.
  destruct (Z.ltb_spec 0 (10 ^ (d - 16))); [reflexivity|lia].
Qed.

(** An argument without a case leaves [value] at [new(big.Int)]. *)
Lemma ToDecimal_default d :
  0 <= d <= 255 -> ToDecimal IOther d = Return (decimal.mkDecimal 0 (-16)).
Proof.
  intros Hd. change (ToDecimal IOther d) with (ToDecimal (IBigInt (Some 0)) d).
  now rewrite ToDecimal_scaled, quotient16_zero.
Qed.

(** A nil [*big.Int] prints as ["<nil>"], which [NewFromString] rejects. *)
Lemma ToDecimal_nil d :
  0 <= d <= 255 -> ToDecimal (IBigInt None) d = Return (decimal.mkDecimal 0 (-16)).
Proof.
  intros Hd. unfold ToDecimal. rewrite tenPow_spec by lia. cbn [bind].
  change (fst (decimal.NewFromString (big.String None))) with (decimal.mkDecimal 0 0).
  now rewrite Div_scaled, quotient16_zero.
Qed.

End ConverterFacts.

(** ** AmountConverter *)

Import Digits DigitFacts ConverterFacts.




(** C2, as stated, fails: [ToDecimal(1, 18)] is 0, not [10^-18]. *)
Lemma ToDecimal_precision_counterexample :
  0 <= 1 <= 2 ^ 256 - 1 /\
  ToDecimal (IBigInt (Some 1)) 18 = Return (decimal.mkDecimal 0 (-16)) /\
  ~ (decimal.toQ (decimal.mkDecimal 0 (-16)) == inject_Z 1 / 10 ^ 18)%Q.
Proof.
  split; [vm_compute; split; discriminate|].
  split; [vm_compute; reflexivity|].
  intros H; vm_compute in H; discriminate H.
Qed.

(** C2, amended: for every integer [a], given as a [*big.Int] or as its
    base-10 string, and every exponent [0 <= d <= 255], [ToDecimal]
    returns a decimal with 16 fractional digits that is within half a unit
    of the sixteenth digit of [a / 10^d]; it is exactly [a / 10^d] if and
    only if that quotient needs no more than 16 fractional digits, which
    is so for every [d <= 16]. *)
Theorem ToDecimal_exact (a d : Z) :
  0 <= d <= 255 ->
  exists r,
    ToDecimal (IBigInt (Some a)) d = Return r /\
    ToDecimal (IString (big.itoa a)) d = Return r /\
    decimal.exp r = -16 /\
    2 * Z.abs (decimal.value r * 10 ^ d - a * 10 ^ 16) <= 10 ^ d /\
    ((decimal.toQ r == inject_Z a / 10 ^ d)%Q <-> fits16 a d) /\
    (d <= 16 -> (decimal.toQ r == inject_Z a / 10 ^ d)%Q).
Proof.
  intros Hd. exists (decimal.mkDecimal (quotient16 a d) (-16)).
  split; [now apply ToDecimal_scaled|]. split.
  - rewrite ToDecimal_String, SetString_itoa. now apply ToDecimal_scaled.
  - split; [reflexivity|]. cbn [decimal.value].
    split; [apply quotient16_bound; lia|].
    split; [apply toQ_quotient16; lia|].
    intros H16. apply toQ_quotient16; [lia|now left].
Qed.

Lemma ToDecimal_exact_witness :
  0 <= 18 <= 255 /\
  exists r,
    ToDecimal (IBigInt (Some 74605500647409000000000000)) 18 = Return r /\
    ToDecimal (IString (big.itoa 74605500647409000000000000)) 18 = Return r /\
    decimal.exp r = -16 /\
    2 * Z.abs (decimal.value r * 10 ^ 18 - 74605500647409000000000000 * 10 ^ 16)
      <= 10 ^ 18 /\
    ((decimal.toQ r == inject_Z 74605500647409000000000000 / 10 ^ 18)%Q
     <-> fits16 74605500647409000000000000 18) /\
    (18 <= 16 -> (decimal.toQ r == inject_Z 74605500647409000000000000 / 10 ^ 18)%Q).
Proof.
  split; [lia|]. apply (ToDecimal_exact 74605500647409000000000000 18). lia.
Defined.

(** C3: a decimal string with more fractional digits than [decimals] is
    cut, not rounded: when [decimal.NewFromString] reads [s] as
    [v * 10^e] and [e + d < 0], [ToWei(s, d)] returns the quotient of [v]
    by [10^-(e+d)] truncated toward zero, which for a non-negative amount
    never exceeds it; and [ToWei("1.23456789", 2)] returns 123. *)
Theorem ToWei_truncates :
  (forall s v e d,
      decimal.NewFromString s = (decimal.mkDecimal v e, None) ->
      0 <= d <= 255 -> e + d < 0 ->
      exists w,
        ToWei (IString s) d = Return w /\
        w = Z.quot v (10 ^ (- (e + d))) /\
        (0 <= v -> w * 10 ^ (- (e + d)) <= v < (w + 1) * 10 ^ (- (e + d)))) /\
  ToWei (IString "1.23456789") 2 = Return 123.
Proof.
  split; [|vm_compute; reflexivity].
  intros s v e d Hs Hd He.
  pose proof (NewFromString_exp s v e Hs) as Hr.
  exists (Z.quot v (10 ^ (- (e + d)))).
  split; [|split; [reflexivity|]].
  - rewrite ToWei_String, Hs. cbn [fst].
    rewrite ToWei_Decimal by (unfold decimal.MinInt32, decimal.MaxInt32 in *; lia).
    unfold trunc10. destruct (Z.leb_spec 0 (e + d)); [lia|reflexivity].
  - intros Hv.
    assert (Hp : 0 < 10 ^ (- (e + d))) by (apply Z.pow_pos_nonneg; lia).
    rewrite Z.quot_div_nonneg by lia.
    pose proof (Z.mul_div_le v _ Hp). pose proof (Z.mul_succ_div_gt v _ Hp). lia.
Qed.

Lemma ToWei_truncates_witness :
  decimal.NewFromString "0.129" = (decimal.mkDecimal 129 (-3), None) /\
  0 <= 2 <= 255 /\ -3 + 2 < 0 /\
  exists w, ToWei (IString "0.129") 2 = Return w /\
            w = Z.quot 129 (10 ^ (- (-3 + 2))) /\
            (0 <= 129 -> w * 10 ^ (- (-3 + 2)) <= 129 < (w + 1) * 10 ^ (- (-3 + 2))).
Proof.
  split; [reflexivity|]. split; [lia|]. split; [lia|].
  apply (proj1 ToWei_truncates "0.129" 129 (-3) 2); [reflexivity|lia|lia].
Defined.




(** C8: [ToWei("1", 18)] is [1000000000000000000], and
    [ToDecimal(1000000000000000000, 18)], from the integer or from its
    string, is a decimal of value 1, which prints as ["1"]. *)
Theorem scaling_identities :
  ToWei (IString "1") 18 = Return 1000000000000000000 /\
  exists r,
    ToDecimal (IBigInt (Some 1000000000000000000)) 18 = Return r /\
    ToDecimal (IString "1000000000000000000") 18 = Return r /\
    decimal.Equal r (decimal.New 1 0) = true /\
    (decimal.toQ r == 1)%Q /\
    decimal.String r = "1".
Proof.
  split; [vm_compute; reflexivity|].
  exists (decimal.mkDecimal 10000000000000000 (-16)).
  repeat split; vm_compute; reflexivity.
Qed.

(** C10: an argument that is neither a string nor a [*big.Int] (an
    [int64], a [float64], a decimal, anything else) matches no case of
    the type switch, and for every exponent [0 <= d <= 255] [ToDecimal]
    returns the decimal 0, which prints as ["0"], whatever the argument
    holds. *)
Theorem ToDecimal_unhandled_type (ivalue : iface) (d : Z) :
  unhandled ivalue -> 0 <= d <= 255 ->
  exists r,
    ToDecimal ivalue d = Return r /\
    decimal.Equal r decimal.Zero = true /\
    (decimal.toQ r == 0)%Q /\
    decimal.String r = "0".
Proof.
  intros Hu Hd. exists (decimal.mkDecimal 0 (-16)).
  split; [|repeat split; vm_compute; reflexivity].
  destruct ivalue; try contradiction; exact (ToDecimal_default d Hd).
Qed.

Lemma ToDecimal_unhandled_type_witness :
  unhandled (IInt64 1000000000000000000) /\ 0 <= 18 <= 255 /\
  exists r,
    ToDecimal (IInt64 1000000000000000000) 18 = Return r /\
    decimal.Equal r decimal.Zero = true /\
    (decimal.toQ r == 0)%Q /\
    decimal.String r = "0".
Proof.
  split; [exact I|]. split; [lia|].
  apply (ToDecimal_unhandled_type (IInt64 1000000000000000000) 18); [exact I|lia].
Defined.

(** ** Balance display *)

(** C7: a failed [balanceOf] read does not stop the run.  For every token
    exponent [0 <= decimals <= 255], the nil balance the binding returns
    next to the error is converted to the decimal 0, the line printed for
    that account shows ["0"], and the step prints both lines whatever the
    two reads returned. *)
Theorem failed_balance_read_shows_zero
  (err : error) (label : string) (other : CallResult) (decimals : Z) :
  0 <= decimals <= 255 ->
  ToDecimal (IBigInt (fst (BalanceOf (CallErr err)))) decimals
    = Return (decimal.mkDecimal 0 (-16)) /\
  showBalance label (CallErr err) decimals = Return (Println2 label "0") /\
  (exists line,
      showBalances (CallErr err) other decimals
        = Return [Println2 "Deployer balance: " "0"; line]) /\
  (exists line,
      showBalances other (CallErr err) decimals
        = Return [line; Println2 "User balance: " "0"]).
Proof.
  intros Hd.
  assert (Z0 : ToDecimal (IBigInt None) decimals = Return (decimal.mkDecimal 0 (-16)))
    by exact (ToDecimal_nil decimals Hd).
  assert (S0 : forall e l, showBalance l (CallErr e) decimals = Return (Println2 l "0")).
  { intros e l. unfold showBalance. cbn [BalanceOf]. rewrite Z0. reflexivity. }
  assert (S1 : forall l, exists line, showBalance l other decimals = Return line).
  { intros l. destruct other as [out0|err'].
    - unfold showBalance. cbn [BalanceOf].
      rewrite ToDecimal_scaled by assumption. cbn [bind]. eauto.
    - rewrite S0. eauto. }
  split; [exact Z0|]. split; [apply S0|]. split.
  - destruct (S1 "User balance: ") as [line Hl]. exists line.
    unfold showBalances. rewrite S0, Hl. reflexivity.
  - destruct (S1 "Deployer balance: ") as [line Hl]. exists line.
    unfold showBalances. rewrite S0, Hl. reflexivity.
Qed.

Lemma failed_balance_read_shows_zero_witness :
  0 <= 18 <= 255 /\
  showBalance "Deployer balance: " (CallErr "execution reverted") 18
    = Return (Println2 "Deployer balance: " "0").
Proof.
  split; [lia|].
  apply (failed_balance_read_shows_zero "execution reverted" "Deployer balance: "
           (CallOk 5) 18). lia.
Defined.

(** ** ConfirmationWaiter *)

Module WaiterFacts.

Import Waiter.

Lemma step_done s ev z : result s = Some z -> step s ev = s.
Proof. intros H. unfold step. now rewrite H. Qed.

Lemma run_done events s z :
  result s = Some z -> fold_left step events s = s.
Proof.
  revert s; induction events as [|ev evs IH]; intros s H; [reflexivity|].
  cbn [fold_left]. rewrite (step_done s ev z H). now apply IH.
Qed.

Lemma step_pending s ev :
  result s = None -> pending ev = true ->
  step s ev = mkState (S (polls s)) (unsubscribes s) None.
Proof.
  intros Hs Hp. unfold step. rewrite Hs. destruct ev as [err|reply]; [discriminate|].
  cbn [pending] in Hp. apply andb_true_iff in Hp. destruct Hp as [H0 H1].
  apply negb_true_iff in H0, H1. now rewrite H0, H1.
Qed.

(** While every poll leaves the receipt pending the loop keeps waiting,
    having polled once per header. *)
Lemma run_pending pre s :
  result s = None -> forallb pending pre = true ->
  fold_left step pre s =
  mkState (polls s + List.length pre) (unsubscribes s) None.
Proof.
  revert s; induction pre as [|ev evs IH]; intros s Hs Hp.
  - cbn. rewrite Nat.add_0_r. now destruct s; cbn in *; subst.
  - cbn [forallb] in Hp. apply andb_true_iff in Hp. destruct Hp as [Hev Hevs].
    cbn [fold_left]. rewrite (step_pending s ev Hs Hev).
    rewrite IH by (try reflexivity; assumption).
    cbn [polls unsubscribes List.length]. f_equal. lia.
Qed.

(** The event on which the wait ends. *)
Lemma run_split events z :
  result (run events) = Some z ->
  exists pre ev rest,
    events = (pre ++ ev :: rest)%list /\ forallb pending pre = true /\
    result (step (mkState (List.length pre) 0 None) ev) = Some z.
Proof.
  unfold run.
  assert (G : forall evs s,
             result s = None ->
             result (fold_left step evs s) = Some z ->
             exists pre ev rest,
               evs = (pre ++ ev :: rest)%list /\ forallb pending pre = true /\
               result (step (mkState (polls s + List.length pre) (unsubscribes s) None) ev)
               = Some z).
  { induction evs as [|ev evs IH]; intros s Hs Hz.
    - cbn in Hz. congruence.
    - cbn [fold_left] in Hz. destruct (pending ev) eqn:Hp.
      + rewrite (step_pending s ev Hs Hp) in Hz.
        destruct (IH (mkState (S (polls s)) (unsubscribes s) None) eq_refl Hz)
          as (pre & ev' & rest & -> & Hpre & Hres).
        exists (ev :: pre), ev', rest. cbn [forallb app List.length polls unsubscribes] in *.
        rewrite Hp, Hpre. repeat split.
        now replace (polls s + S (List.length pre))%nat
          with (S (polls s) + List.length pre)%nat by lia.
      + exists [], ev, evs. cbn [app forallb List.length]. repeat split.
        rewrite Nat.add_0_r.
        assert (Hdone : exists z', result (step s ev) = Some z').
        { unfold step. rewrite Hs. destruct ev as [err|reply]; [cbn; eauto|].
          cbn [pending] in Hp.
          destruct (checkTransactionReceipt reply =? 0); [cbn; eauto|].
          destruct (checkTransactionReceipt reply =? 1); [cbn; eauto|discriminate]. }
        destruct Hdone as [z' Hz'].
        rewrite (run_done evs _ z' Hz') in Hz.
        destruct s as [p u r]. cbn in Hs. subst r. exact Hz. }
  intros Hz. destruct (G events Subscribed eq_refl Hz) as (pre & ev & rest & H1 & H2 & H3).
  exists pre, ev, rest. now repeat split.
Qed.

End WaiterFacts.

(** C5: while the function is waiting, a header notification makes it
    poll the receipt exactly once; an error reply (an absent receipt is
    one) leaves it waiting without unsubscribing, status 0 makes it
    unsubscribe and return [Failed], status 1 makes it unsubscribe and
    return [Succeeded].  When the receipt is absent on the first two
    headers and has status 1 on the third, it returns [Succeeded] after
    three polls and one unsubscribe. *)
Theorem waiter_poll_protocol :
  (forall s reply,
      Waiter.result s = None ->
      Waiter.polls (Waiter.step s (Waiter.NewHead reply)) = S (Waiter.polls s) /\
      match reply with
      | Waiter.ReceiptErr _ =>
          Waiter.step s (Waiter.NewHead reply)
          = Waiter.mkState (S (Waiter.polls s)) (Waiter.unsubscribes s) None
      | Waiter.Receipt status =>
          (status = 0 ->
           Waiter.step s (Waiter.NewHead reply)
           = Waiter.mkState (S (Waiter.polls s)) (S (Waiter.unsubscribes s))
               (Some Waiter.Failed)) /\
          (status = 1 ->
           Waiter.step s (Waiter.NewHead reply)
           = Waiter.mkState (S (Waiter.polls s)) (S (Waiter.unsubscribes s))
               (Some Waiter.Succeeded))
      end) /\
  (forall e1 e2,
      Waiter.WaitForBlockCompletion None
        [Waiter.NewHead (Waiter.ReceiptErr e1);
         Waiter.NewHead (Waiter.ReceiptErr e2);
         Waiter.NewHead (Waiter.Receipt 1)]
      = Return (Waiter.mkState 3 1 (Some Waiter.Succeeded))).
Proof.
  split; [|reflexivity].
  intros s reply Hs. unfold Waiter.step. rewrite Hs. split.
  - destruct (Waiter.checkTransactionReceipt reply =? 0); [reflexivity|].
    destruct (Waiter.checkTransactionReceipt reply =? 1); reflexivity.
  - destruct reply as [status|err]; [|reflexivity].
    split; intros ->; reflexivity.
Qed.

Lemma waiter_poll_protocol_witness :
  Waiter.result (Waiter.mkState 2 0 None) = None /\
  Waiter.step (Waiter.mkState 2 0 None) (Waiter.NewHead (Waiter.Receipt 1))
  = Waiter.mkState 3 1 (Some Waiter.Succeeded).
Proof.
  split; [reflexivity|].
  exact (proj2 (proj2 (proj1 waiter_poll_protocol (Waiter.mkState 2 0 None)
                         (Waiter.Receipt 1) eq_refl)) eq_refl).
Defined.

(** C6: [SubscriptionError] and [Failed] are different results.  When the
    subscription reports an error after any number of polls that left the
    receipt pending, the function returns [SubscriptionError], without
    polling again; and whenever it returns [Failed], the wait ended on a
    header whose poll read status 0, never on a subscription error. *)
Theorem subscription_error_is_not_failed :
  Waiter.SubscriptionError <> Waiter.Failed /\
  (forall pre err rest,
      forallb Waiter.pending pre = true ->
      Waiter.WaitForBlockCompletion None (pre ++ Waiter.SubErr err :: rest)%list
      = Return (Waiter.mkState (List.length pre) 0 (Some Waiter.SubscriptionError))) /\
  (forall events,
      Waiter.result (Waiter.run events) = Some Waiter.Failed ->
      exists pre reply rest,
        events = (pre ++ Waiter.NewHead reply :: rest)%list /\
        forallb Waiter.pending pre = true /\
        Waiter.checkTransactionReceipt reply = 0).
Proof.
  split; [discriminate|]. split.
  - intros pre err rest Hpre. unfold Waiter.WaitForBlockCompletion, Waiter.run.
    rewrite fold_left_app, (WaiterFacts.run_pending pre Waiter.Subscribed eq_refl Hpre).
    cbn [fold_left].
    erewrite WaiterFacts.run_done; reflexivity.
  - intros events Hz.
    destruct (WaiterFacts.run_split events _ Hz) as (pre & ev & rest & -> & Hpre & Hres).
    destruct ev as [err|reply]; [discriminate Hres|].
    exists pre, reply, rest. repeat split; try assumption.
    unfold Waiter.step in Hres. cbn [Waiter.result] in Hres.
    destruct (Z.eqb_spec (Waiter.checkTransactionReceipt reply) 0); [assumption|].
    destruct (Waiter.checkTransactionReceipt reply =? 1); discriminate Hres.
Qed.

Lemma subscription_error_is_not_failed_witness :
  forallb Waiter.pending [Waiter.NewHead (Waiter.ReceiptErr "not found")] = true /\
  Waiter.WaitForBlockCompletion None
    ([Waiter.NewHead (Waiter.ReceiptErr "not found")]
       ++ Waiter.SubErr "connection closed" :: [Waiter.NewHead (Waiter.Receipt 0)])%list
  = Return (Waiter.mkState 1 0 (Some Waiter.SubscriptionError)).
Proof.
  split; [reflexivity|].
  exact (proj1 (proj2 subscription_error_is_not_failed)
           [Waiter.NewHead (Waiter.ReceiptErr "not found")] "connection closed"
           [Waiter.NewHead (Waiter.Receipt 0)] eq_refl).
Defined.

(** ** AccountSigner *)

(** C9: for a private key [crypto.HexToECDSA] accepts, and a node that
    answers both queries, [getAccount] returns an account whose
    authorization has no nonce, value 0, gas limit 300000, the gas price
    the node suggested, and a signer for the id the node reported. *)
Theorem getAccount_authorization
  (PrivateKey PublicKey Address : Type)
  (HexToECDSA : string -> PrivateKey + error)
  (Public : PrivateKey -> PublicKey)
  (PubkeyToAddress : PublicKey -> Address)
  (privateKeyStr : string) (key : PrivateKey) (chainID gasPrice : Z) :
  HexToECDSA privateKeyStr = inl key ->
  exists account,
    getAccount HexToECDSA Public PubkeyToAddress privateKeyStr
      (mkClient (inl chainID) (inl gasPrice)) = Return account /\
    Nonce (Auth account) = None /\
    Value (Auth account) = Some 0 /\
    GasLimit (Auth account) = 300000 /\
    GasPrice (Auth account) = Some gasPrice /\
    SignerChainID (Auth account) = chainID /\
    AccountAddress account = PubkeyToAddress (Public key) /\
    From (Auth account) = PubkeyToAddress (Public key).
Proof.
  intros Hkey. unfold getAccount. rewrite Hkey. cbn.
  eexists. split; [reflexivity|]. cbn. repeat split.
Qed.

Lemma getAccount_authorization_witness :
  (fun _ : string => @inl Z error 7) "07" = inl 7 /\
  exists account,
    getAccount (fun _ => inl 7) (fun k => k + 1) (fun p => p * 2)
      "07" (mkClient (inl 97) (inl 10000000000)) = Return account /\
    Nonce (Auth account) = None /\
    Value (Auth account) = Some 0 /\
    GasLimit (Auth account) = 300000 /\
    GasPrice (Auth account) = Some 10000000000 /\
    SignerChainID (Auth account) = 97 /\
    AccountAddress account = 16 /\
    From (Auth account) = 16.
Proof.
  split; [reflexivity|].
  exact (getAccount_authorization Z Z Z (fun _ => inl 7) (fun k => k + 1)
           (fun p => p * 2) "07" 7 97 10000000000 eq_refl).
Defined.

(** * Further properties *)

(** ** AmountConverter, further properties *)

Module ScalingFacts.

Lemma strip10_spec fuel m k :
  0 <= k ->
  let '(m', k') := decimal.strip10 fuel m k in
  m' * 10 ^ k' = m * 10 ^ k /\ k <= k' <= k + Z.of_nat fuel.
Proof.
  revert m k; induction fuel as [|f IH]; intros m k Hk.
  - cbn. lia.
  - cbn [decimal.strip10].
    destruct ((Z.rem m 10 =? 0) && negb (m =? 0))%bool eqn:E.
    + apply andb_true_iff in E. destruct E as [E _]. apply Z.eqb_eq in E.
      specialize (IH (Z.quot m 10) (k + 1) ltac:(lia)).
      destruct (decimal.strip10 f (Z.quot m 10) (k + 1)) as [m' k'].
      destruct IH as [IH1 IH2]. split; [|lia].
      rewrite IH1, Z.pow_add_r by lia. change (10 ^ 1) with 10.
      pose proof (Z.quot_rem' m 10). lia.
    + lia.
Qed.

Lemma ToWei_Finite x d :
  ToWei (IFloat64 (decimal.Finite x)) d = ToWei (IDecimal x) d.
Proof. reflexivity. Qed.

Lemma ToWei_float_int n d :
  0 <= d <= 255 ->
  ToWei (IFloat64 (decimal.float64_of_int n)) d = Return (n * 10 ^ d).
Proof.
  intros Hd. unfold decimal.float64_of_int.
  pose proof (strip10_spec 16 n 0 ltac:(lia)) as H.
  destruct (decimal.strip10 16 n 0) as [m k].
  change (10 ^ 0) with 1 in H. destruct H as [Hm Hk].
  rewrite ToWei_Finite.
  rewrite ToWei_Decimal by (unfold decimal.MinInt32, decimal.MaxInt32; lia).
  unfold trunc10. destruct (Z.leb_spec 0 (k + d)); [|lia].
  rewrite Z.pow_add_r by lia. f_equal. lia.
Qed.

End ScalingFacts.





(** The dynamic types [ToWei] has no case for. *)
Definition unscaled (iamount : iface) : Prop :=
  match iamount with
  | IBigInt _ | IOther => True
  | _ => False
  end.

(** X3: [ToWei] has no case for a [*big.Int]: such an argument, like any
    other type without a case, leaves the amount at zero, and the result
    is 0 whatever integer was passed. *)
Theorem ToWei_unhandled_type (iamount : iface) (d : Z) :
  unscaled iamount -> 0 <= d <= 255 -> ToWei iamount d = Return 0.
Proof.
  intros Hu Hd.
  assert (Z0 : ToWei (IDecimal (decimal.mkDecimal 0 0)) d = Return 0).
  { rewrite ToWei_Decimal by (unfold decimal.MinInt32, decimal.MaxInt32; lia).
    unfold trunc10. destruct (0 <=? 0 + d); reflexivity. }
  rewrite <- Z0.
  destruct iamount; try contradiction; unfold ToWei;
    change (decimal.NewFromFloat (decimal.float64_of_int 0))
      with (Return (decimal.mkDecimal 0 0));
    cbn [bind]; reflexivity.
Qed.

Lemma ToWei_unhandled_type_witness :
  unscaled (IBigInt (Some 1000000000000000000)) /\ 0 <= 18 <= 255 /\
  ToWei (IBigInt (Some 1000000000000000000)) 18 = Return 0.
Proof.
  split; [exact I|]. split; [lia|].
  apply (ToWei_unhandled_type (IBigInt (Some 1000000000000000000)) 18); [exact I|lia].
Defined.

(** ** ToDecimal and the round trip, further properties *)

Module RoundingFacts.

Lemma roundHalfAway_opp a b :
  0 < b -> roundHalfAway (- a) b = - roundHalfAway a b.
Proof.
  intros Hb. unfold roundHalfAway.
  rewrite Z.quot_opp_l, Z.rem_opp_l, Z.abs_opp by lia.
  pose proof (Z.rem_bound_abs a b ltac:(lia)) as B.
  destruct (Z.ltb_spec (2 * Z.abs (Z.rem a b)) b); [reflexivity|].
  assert (a <> 0).
  { intros ->. rewrite Z.rem_0_l in * by lia. cbn in *. lia. }
  destruct (Z.ltb_spec (- a) 0), (Z.ltb_spec a 0); lia.
Qed.

Lemma roundHalfAway_mono a a' b :
  0 < b -> a <= a' -> roundHalfAway a b <= roundHalfAway a' b.
Proof.
  intros Hb Ha. destruct (Z.eq_dec a a') as [->|Hne]; [lia|].
  destruct (roundHalfAway_spec a b Hb) as [B _].
  destruct (roundHalfAway_spec a' b Hb) as [B' _].
  set (q := roundHalfAway a b) in *. set (q' := roundHalfAway a' b) in *.
  destruct (Z_le_gt_dec q q') as [|Hgt]; [assumption|exfalso].
  assert (b <= (q - q') * b) by nia.
  lia.
Qed.

Lemma quotient16_opp a d : quotient16 (- a) d = - quotient16 a d.
Proof.
  unfold quotient16. destruct (Z.leb_spec d 16); [lia|].
  apply roundHalfAway_opp, Z.pow_pos_nonneg; lia.
Qed.

Lemma quotient16_mono a a' d : a <= a' -> quotient16 a d <= quotient16 a' d.
Proof.
  intros Ha. unfold quotient16. destruct (Z.leb_spec d 16).
  - apply Z.mul_le_mono_nonneg_r; [apply Z.pow_nonneg; lia|assumption].
  - apply roundHalfAway_mono; [apply Z.pow_pos_nonneg; lia|assumption].
Qed.

(** What the round trip returns. *)
Lemma roundTrip_value a d :
  0 <= d <= 255 ->
  roundTrip a d =
  Return (if d <=? 16 then a else roundHalfAway a (10 ^ (d - 16)) * 10 ^ (d - 16)).
Proof.
  intros Hd. unfold roundTrip. rewrite ToDecimal_scaled by assumption. cbn [bind].
  rewrite ToWei_Decimal by (unfold decimal.MinInt32, decimal.MaxInt32; lia).
  unfold trunc10, quotient16. destruct (Z.leb_spec d 16).
  - destruct (Z.leb_spec 0 (-16 + d)).
    + replace (16 - d) with 0 by lia. replace (-16 + d) with 0 by lia.
      change (10 ^ 0) with 1. f_equal. lia.
    + replace (- (-16 + d)) with (16 - d) by lia.
      f_equal. apply Z.quot_mul, Z.pow_nonzero; lia.
  - destruct (Z.leb_spec 0 (-16 + d)); [|lia].
    now replace (-16 + d) with (d - 16) by lia.
Qed.

End RoundingFacts.

(** X4: the conversion treats the sign symmetrically: [ToDecimal] of
    [-a] is the negation of [ToDecimal] of [a], rounded digit included. *)
Theorem ToDecimal_opp (a d : Z) :
  0 <= d <= 255 ->
  exists r,
    ToDecimal (IBigInt (Some a)) d = Return r /\
    ToDecimal (IBigInt (Some (- a))) d
      = Return (decimal.mkDecimal (- decimal.value r) (decimal.exp r)).
Proof.
  intros Hd. eexists. split; [now apply ToDecimal_scaled|].
  rewrite ToDecimal_scaled by assumption. cbn [decimal.value decimal.exp].
  now rewrite RoundingFacts.quotient16_opp.
Qed.

Lemma ToDecimal_opp_witness :
  0 <= 18 <= 255 /\
  exists r,
    ToDecimal (IBigInt (Some 1234567890123456789)) 18 = Return r /\
    ToDecimal (IBigInt (Some (- 1234567890123456789))) 18
      = Return (decimal.mkDecimal (- decimal.value r) (decimal.exp r)).
Proof.
  assert (D : 0 <= 18 <= 255) by lia.
  split; [exact D|]. exact (ToDecimal_opp 1234567890123456789 18 D).
Defined.

(** X5: the conversion keeps the order of amounts: for [a <= b] the
    decimal shown for [a] is not greater than the one shown for [b]
    ([Decimal.Cmp] is not 1), for every exponent, rounding included. *)
Theorem ToDecimal_monotone (a b d : Z) :
  0 <= d <= 255 -> a <= b ->
  exists ra rb,
    ToDecimal (IBigInt (Some a)) d = Return ra /\
    ToDecimal (IBigInt (Some b)) d = Return rb /\
    decimal.Cmp ra rb <= 0.
Proof.
  intros Hd Hab. do 2 eexists.
  split; [now apply ToDecimal_scaled|]. split; [now apply ToDecimal_scaled|].
  unfold decimal.Cmp, decimal.RescalePair. cbn [decimal.value decimal.exp].
  change (-16 =? -16) with true. cbv iota. cbn [decimal.value].
  pose proof (RoundingFacts.quotient16_mono a b d Hab) as M.
  destruct (Z.compare_spec (quotient16 a d) (quotient16 b d)); lia.
Qed.

Lemma ToDecimal_monotone_witness :
  0 <= 18 <= 255 /\ 149 <= 150 /\
  exists ra rb,
    ToDecimal (IBigInt (Some 149)) 18 = Return ra /\
    ToDecimal (IBigInt (Some 150)) 18 = Return rb /\
    decimal.Cmp ra rb <= 0.
Proof.
  assert (D : 0 <= 18 <= 255) by lia. assert (L : 149 <= 150) by lia.
  split; [exact D|]. split; [exact L|]. exact (ToDecimal_monotone 149 150 18 D L).
Defined.

(** X6: converting an amount to its decimal and back moves it by at most
    half of [10^(d-16)] smallest units (not at all for [d <= 16]), and
    the amount that comes back is a fixed point: converting it again
    returns it unchanged. *)
Theorem roundTrip_stable (a d : Z) :
  0 <= d <= 255 ->
  exists w,
    roundTrip a d = Return w /\
    roundTrip w d = Return w /\
    (d <= 16 -> w = a) /\
    (16 < d -> 2 * Z.abs (w - a) <= 10 ^ (d - 16)).
Proof.
  intros Hd. rewrite RoundingFacts.roundTrip_value by assumption.
  eexists. split; [reflexivity|].
  rewrite RoundingFacts.roundTrip_value by assumption.
  destruct (Z.leb_spec d 16) as [H|H].
  - split; [reflexivity|]. split; [reflexivity|lia].
  - assert (Hb : 0 < 10 ^ (d - 16)) by (apply Z.pow_pos_nonneg; lia).
    destruct (roundHalfAway_spec a _ Hb) as [B _].
    set (bb := 10 ^ (d - 16)) in *. set (q := roundHalfAway a bb) in *.
    split; [|split; [lia|intros _; exact B]].
    f_equal. f_equal.
    destruct (roundHalfAway_spec (q * bb) bb Hb) as [_ E].
    assert (R : Z.rem (q * bb) bb = 0) by (apply Z.rem_mul; lia).
    apply E in R. apply Z.mul_cancel_r in R; [exact R|lia].
Qed.

Lemma roundTrip_stable_witness :
  0 <= 18 <= 255 /\
  exists w,
    roundTrip 1234567890123456789 18 = Return w /\
    roundTrip w 18 = Return w /\
    (18 <= 16 -> w = 1234567890123456789) /\
    (16 < 18 -> 2 * Z.abs (w - 1234567890123456789) <= 10 ^ (18 - 16)).
Proof.
  assert (D : 0 <= 18 <= 255) by lia.
  split; [exact D|]. exact (roundTrip_stable 1234567890123456789 18 D).
Defined.

(** ** ConfirmationWaiter, further properties *)

Module WaiterInvariant.

Import Waiter.

(** The states the loop can be in. *)
Definition consistent (s : state) : Prop :=
  (result s = None /\ unsubscribes s = 0%nat) \/
  (result s = Some SubscriptionError /\ unsubscribes s = 0%nat) \/
  (result s = Some Failed /\ unsubscribes s = 1%nat) \/
  (result s = Some Succeeded /\ unsubscribes s = 1%nat).

Lemma step_consistent s ev : consistent s -> consistent (step s ev).
Proof.
  intros H. unfold step. destruct (result s) as [z|] eqn:E; [exact H|].
  destruct H as [[_ U]|[[H _]|[[H _]|[H _]]]]; try congruence.
  destruct ev as [err|reply].
  - right; left. now split.
  - destruct (checkTransactionReceipt reply =? 0).
    + right; right; left. cbn. split; [reflexivity|lia].
    + destruct (checkTransactionReceipt reply =? 1).
      * right; right; right. cbn. split; [reflexivity|lia].
      * left. now split.
Qed.

Lemma fold_consistent events s :
  consistent s -> consistent (fold_left step events s).
Proof.
  revert s; induction events as [|ev evs IH]; intros s H; [exact H|].
  cbn [fold_left]. apply IH, step_consistent, H.
Qed.

Definition isHeader (ev : event) : bool :=
  match ev with NewHead _ => true | SubErr _ => false end.

Lemma step_polls s ev :
  (polls (step s ev) <= polls s + (if isHeader ev then 1 else 0))%nat.
Proof.
  unfold step. destruct (result s); [destruct (isHeader ev); lia|].
  destruct ev as [err|reply]; cbn [isHeader polls]; [lia|].
  destruct (checkTransactionReceipt reply =? 0); [cbn; lia|].
  destruct (checkTransactionReceipt reply =? 1); cbn; lia.
Qed.

Lemma fold_polls events s :
  (polls (fold_left step events s)
   <= polls s + List.length (filter isHeader events))%nat.
Proof.
  revert s; induction events as [|ev evs IH]; intros s; [cbn; lia|].
  cbn [fold_left filter]. specialize (IH (step s ev)).
  pose proof (step_polls s ev). destruct (isHeader ev); cbn [List.length]; lia.
Qed.

End WaiterInvariant.

(** X7: after any number of polls that left the receipt pending, the
    first poll that reads status 0 or 1 ends the wait: the function
    returns that status, having polled once per header up to it and
    unsubscribed once, whatever the channels deliver afterwards. *)
Theorem waiter_resolves
  (pre rest : list Waiter.event) (reply : Waiter.ReceiptReply) (status : Z) :
  forallb Waiter.pending pre = true ->
  Waiter.checkTransactionReceipt reply = status ->
  status = Waiter.Failed \/ status = Waiter.Succeeded ->
  Waiter.WaitForBlockCompletion None (pre ++ Waiter.NewHead reply :: rest)%list
  = Return (Waiter.mkState (S (List.length pre)) 1 (Some status)).
Proof.
  intros Hpre Hst Hor. unfold Waiter.WaitForBlockCompletion, Waiter.run.
  rewrite fold_left_app, (WaiterFacts.run_pending pre Waiter.Subscribed eq_refl Hpre).
  change (Waiter.mkState (Waiter.polls Waiter.Subscribed + List.length pre)
            (Waiter.unsubscribes Waiter.Subscribed) None)
    with (Waiter.mkState (List.length pre) 0 None).
  cbn [fold_left].
  assert (E : Waiter.step (Waiter.mkState (List.length pre) 0 None) (Waiter.NewHead reply)
              = Waiter.mkState (S (List.length pre)) 1 (Some status)).
  { unfold Waiter.step. cbn [Waiter.result Waiter.polls Waiter.unsubscribes].
    rewrite Hst. destruct Hor as [->| ->]; reflexivity. }
  rewrite E. erewrite WaiterFacts.run_done; reflexivity.
Qed.

Lemma waiter_resolves_witness :
  forallb Waiter.pending
    [Waiter.NewHead (Waiter.ReceiptErr "not found"); Waiter.NewHead (Waiter.Receipt 2)] = true /\
  Waiter.checkTransactionReceipt (Waiter.Receipt 0) = 0 /\
  (0 = Waiter.Failed \/ 0 = Waiter.Succeeded) /\
  Waiter.WaitForBlockCompletion None
    ([Waiter.NewHead (Waiter.ReceiptErr "not found"); Waiter.NewHead (Waiter.Receipt 2)]
       ++ Waiter.NewHead (Waiter.Receipt 0) :: [Waiter.NewHead (Waiter.Receipt 1)])%list
  = Return (Waiter.mkState 3 1 (Some 0)).
Proof.
  split; [reflexivity|]. split; [reflexivity|]. split; [left; reflexivity|].
  exact (waiter_resolves
           [Waiter.NewHead (Waiter.ReceiptErr "not found"); Waiter.NewHead (Waiter.Receipt 2)]
           [Waiter.NewHead (Waiter.Receipt 1)] (Waiter.Receipt 0) 0
           eq_refl eq_refl (or_introl eq_refl)).
Defined.

(** X8: the wait has no bound of its own: as long as every header's poll
    leaves the receipt pending (no receipt, an error, or a status other
    than 0 and 1), the function has not returned and has not
    unsubscribed, however many headers arrived, and it has polled once
    per header. *)
Theorem waiter_keeps_waiting (events : list Waiter.event) :
  forallb Waiter.pending events = true ->
  Waiter.WaitForBlockCompletion None events
  = Return (Waiter.mkState (List.length events) 0 None).
Proof.
  intros H. unfold Waiter.WaitForBlockCompletion, Waiter.run.
  now rewrite (WaiterFacts.run_pending events Waiter.Subscribed eq_refl H).
Qed.

Lemma waiter_keeps_waiting_witness :
  forallb Waiter.pending
    [Waiter.NewHead (Waiter.ReceiptErr "not found"); Waiter.NewHead (Waiter.Receipt 7)] = true /\
  Waiter.WaitForBlockCompletion None
    [Waiter.NewHead (Waiter.ReceiptErr "not found"); Waiter.NewHead (Waiter.Receipt 7)]
  = Return (Waiter.mkState 2 0 None).
Proof.
  split; [reflexivity|].
  exact (waiter_keeps_waiting
           [Waiter.NewHead (Waiter.ReceiptErr "not found"); Waiter.NewHead (Waiter.Receipt 7)]
           eq_refl).
Defined.

(** X9: for every sequence of events, the function returns nothing but
    -1, 0 or 1; it calls [Unsubscribe] exactly once when it returns 0 or
    1 and never otherwise, in particular not when the subscription
    reported an error; and it never polls more often than headers
    arrived. *)
Theorem waiter_invariant (events : list Waiter.event) :
  let s := Waiter.run events in
  (Waiter.result s = None \/ Waiter.result s = Some Waiter.SubscriptionError \/
   Waiter.result s = Some Waiter.Failed \/ Waiter.result s = Some Waiter.Succeeded) /\
  (Waiter.unsubscribes s <= 1)%nat /\
  (Waiter.unsubscribes s = 1%nat <->
   Waiter.result s = Some Waiter.Failed \/ Waiter.result s = Some Waiter.Succeeded) /\
  (Waiter.polls s <= List.length (filter WaiterInvariant.isHeader events))%nat.
Proof.
  cbv zeta. pose proof (WaiterInvariant.fold_consistent events Waiter.Subscribed) as C.
  pose proof (WaiterInvariant.fold_polls events Waiter.Subscribed) as P.
  fold (Waiter.run events) in C, P.
  specialize (C (or_introl (conj eq_refl eq_refl))).
  split; [|split; [|split]].
  - destruct C as [[H _]|[[H _]|[[H _]|[H _]]]]; tauto.
  - destruct C as [[_ H]|[[_ H]|[[_ H]|[_ H]]]]; lia.
  - unfold Waiter.SubscriptionError, Waiter.Failed, Waiter.Succeeded in *.
    destruct C as [[H U]|[[H U]|[[H U]|[H U]]]]; rewrite H, U; split;
      try tauto; try lia; intros [?|?]; discriminate.
  - exact P.
Qed.

(** ** AccountSigner, further properties *)

(** X10: [getAccount] returns an account only when the key parses and
    the node answers both queries; otherwise the process exits with the
    first error met, in the order key, network id, gas price: a
    malformed key ends the run whatever the node would have answered. *)
Theorem getAccount_exits
  (PrivateKey PublicKey Address : Type)
  (HexToECDSA : string -> PrivateKey + error)
  (Public : PrivateKey -> PublicKey)
  (PubkeyToAddress : PublicKey -> Address)
  (privateKeyStr : string) (client : Client) :
  match HexToECDSA privateKeyStr, NetworkID client, SuggestGasPrice client with
  | inr err, _, _ =>
      getAccount HexToECDSA Public PubkeyToAddress privateKeyStr client = Fatal err
  | inl _, inr err, _ =>
      getAccount HexToECDSA Public PubkeyToAddress privateKeyStr client = Fatal err
  | inl _, inl _, inr err =>
      getAccount HexToECDSA Public PubkeyToAddress privateKeyStr client = Fatal err
  | inl key, inl _, inl _ =>
      exists account,
        getAccount HexToECDSA Public PubkeyToAddress privateKeyStr client = Return account /\
        AccountAddress account = PubkeyToAddress (Public key)
  end.
Proof.
  unfold getAccount.
  destruct (HexToECDSA privateKeyStr) as [key|err]; [|reflexivity].
  destruct (NetworkID client) as [chainID|err]; [|reflexivity].
  destruct (SuggestGasPrice client) as [gasPrice|err]; [|reflexivity].
  eexists. split; reflexivity.
Qed.

(** ** Orchestrator *)

Module OrchestratorFacts.

(** The balance lines are printed whatever the two reads returned. *)
Lemma showBalance_returns label call d :
  0 <= d <= 255 -> exists line, showBalance label call d = Return line.
Proof.
  intros Hd. unfold showBalance. destruct call as [out0|err]; cbn [BalanceOf].
  - rewrite ToDecimal_scaled by assumption. cbn [bind]. eauto.
  - rewrite ToDecimal_nil by assumption. cbn [bind]. eauto.
Qed.

Lemma showBalances_returns c1 c2 d :
  0 <= d <= 255 -> exists lines, showBalances c1 c2 d = Return lines.
Proof.
  intros Hd. unfold showBalances.
  destruct (showBalance_returns "Deployer balance: " c1 d Hd) as [l1 ->].
  destruct (showBalance_returns "User balance: " c2 d Hd) as [l2 ->].
  cbn [bind]. eauto.
Qed.

(** A wait that returns, whatever it returns. *)
Definition returned (subscription : option error * list Waiter.event) : Prop :=
  fst subscription = None /\ Waiter.result (Waiter.run (snd subscription)) <> None.

Lemma await_returned {Address : Type} subscription (k : execution Address) :
  returned subscription -> await subscription k = k.
Proof.
  intros [Hs Hr]. unfold await. rewrite Hs. cbn [Waiter.WaitForBlockCompletion andThen].
  destruct (Waiter.result (Waiter.run (snd subscription))); [reflexivity|congruence].
Qed.

(** The authorization [getAccount] builds. *)
Definition authorization {Address : Type} (address : Address) (chainID gasPrice : Z)
  : TransactOpts Address :=
  mkTransactOpts Address address None chainID (Some 0) (Some gasPrice) 300000.

End OrchestratorFacts.

Section MainFacts.

Variables PrivateKey PublicKey Address : Type.
Variable HexToECDSA : string -> PrivateKey + error.
Variable Public : PrivateKey -> PublicKey.
Variable PubkeyToAddress : PublicKey -> Address.

Variables deployerKey userKey : PrivateKey.
Variables chainD gasD chainU gasU : Z.

Let deployerAddress := PubkeyToAddress (Public deployerKey).
Let userAddress := PubkeyToAddress (Public userKey).
Let deployerAuth := OrchestratorFacts.authorization deployerAddress chainD gasD.
Let userAuth := OrchestratorFacts.authorization userAddress chainU gasU.

(** A world in which the set-up of [main] succeeds. *)
Definition ready (w : World) (decimals : Z) : Prop :=
  dial w = None /\
  HexToECDSA (DEPLOYER_PRIVATE_KEY w) = inl deployerKey /\
  HexToECDSA (USER_PRIVATE_KEY w) = inl userKey /\
  deployerQueries w = mkClient (inl chainD) (inl gasD) /\
  userQueries w = mkClient (inl chainU) (inl gasU) /\
  abiJSON w = None /\
  decimalsCall w = CallOk decimals /\
  0 <= decimals <= 255.

Lemma main_ready w decimals :
  ready w decimals ->
  main HexToECDSA Public PubkeyToAddress w =
  submit (Transfer deployerAuth userAddress (100 * 10 ^ decimals))
    (transactReplies w 0%nat) (fun _ =>
  await (subscriptions w 0%nat) (
  submit (Approve userAuth deployerAddress (100 * 10 ^ decimals))
    (transactReplies w 1%nat) (fun _ =>
  await (subscriptions w 1%nat) (
  submit (TransferFrom deployerAuth userAddress deployerAddress (10 * 10 ^ decimals))
    (transactReplies w 2%nat) (fun _ =>
  await (subscriptions w 2%nat) ([], Completed)))))).
Proof.
  intros (Hdial & Hkd & Hku & Hqd & Hqu & Habi & Hdec & Hd).
  unfold main, getAccount. rewrite Hdial, Hkd, Hku, Hqd, Hqu, Habi, Hdec.
  cbn [getClient andThen NetworkID SuggestGasPrice NewERC20token Decimals].
  destruct (OrchestratorFacts.showBalances_returns (balanceCalls w 0%nat) (balanceCalls w 1%nat)
              decimals Hd) as [l01 ->].
  destruct (OrchestratorFacts.showBalances_returns (balanceCalls w 2%nat) (balanceCalls w 3%nat)
              decimals Hd) as [l23 ->].
  destruct (OrchestratorFacts.showBalances_returns (balanceCalls w 4%nat) (balanceCalls w 5%nat)
              decimals Hd) as [l45 ->].
  rewrite !ScalingFacts.ToWei_float_int by assumption.
  cbn [andThen]. reflexivity.
Qed.

(** X11: when the set-up succeeds, the node accepts the three
    submissions and every confirmation wait returns, [main] submits, in
    this order and nothing else, [transfer] of [100 * 10^decimals] from
    the deployer to the user, [approve] of the same amount by the user
    for the deployer, and [transferFrom] of [10 * 10^decimals] by the
    deployer from the user to itself, and then returns.  This holds
    whatever the waits returned (a failed transaction or a subscription
    error included) and whatever the balance reads returned. *)
Theorem main_submits (w : World) (decimals : Z) (h1 h2 h3 : string) :
  ready w decimals ->
  transactReplies w 0%nat = inl h1 ->
  transactReplies w 1%nat = inl h2 ->
  transactReplies w 2%nat = inl h3 ->
  OrchestratorFacts.returned (subscriptions w 0%nat) ->
  OrchestratorFacts.returned (subscriptions w 1%nat) ->
  OrchestratorFacts.returned (subscriptions w 2%nat) ->
  main HexToECDSA Public PubkeyToAddress w =
  ([Transfer deployerAuth userAddress (100 * 10 ^ decimals);
    Approve userAuth deployerAddress (100 * 10 ^ decimals);
    TransferFrom deployerAuth userAddress deployerAddress (10 * 10 ^ decimals)],
   Completed).
Proof.
  intros Hready H1 H2 H3 R1 R2 R3.
  rewrite (main_ready w decimals Hready), H1, H2, H3.
  cbn [submit].
  now rewrite !OrchestratorFacts.await_returned by assumption.
Qed.

(** X12: a submission the node rejects ends the run at once: after it no
    further transaction is submitted.  A rejected [transfer] leaves
    [approve] and [transferFrom] unsent, a rejected [approve] leaves
    [transferFrom] unsent. *)
Theorem main_stops_at_rejection (w : World) (decimals : Z) (err : error) :
  ready w decimals ->
  (transactReplies w 0%nat = inr err ->
   main HexToECDSA Public PubkeyToAddress w =
   ([Transfer deployerAuth userAddress (100 * 10 ^ decimals)], Exited err)) /\
  (forall h1,
      transactReplies w 0%nat = inl h1 ->
      OrchestratorFacts.returned (subscriptions w 0%nat) ->
      transactReplies w 1%nat = inr err ->
      main HexToECDSA Public PubkeyToAddress w =
      ([Transfer deployerAuth userAddress (100 * 10 ^ decimals);
        Approve userAuth deployerAddress (100 * 10 ^ decimals)], Exited err)).
Proof.
  intros Hready. rewrite (main_ready w decimals Hready). split.
  - intros ->. reflexivity.
  - intros h1 -> R1 ->. cbn [submit].
    now rewrite OrchestratorFacts.await_returned by assumption.
Qed.

(** X13: [main] does not get past a confirmation wait that does not
    return: when the subscription cannot be opened the run exits, and
    when no poll ever resolves the receipt the run stays blocked; in both
    cases the transfer is the only transaction submitted. *)
Theorem main_stuck_in_wait (w : World) (decimals : Z) (h1 : string) :
  ready w decimals ->
  transactReplies w 0%nat = inl h1 ->
  (forall err,
      fst (subscriptions w 0%nat) = Some err ->
      main HexToECDSA Public PubkeyToAddress w =
      ([Transfer deployerAuth userAddress (100 * 10 ^ decimals)], Exited err)) /\
  (fst (subscriptions w 0%nat) = None ->
   forallb Waiter.pending (snd (subscriptions w 0%nat)) = true ->
   main HexToECDSA Public PubkeyToAddress w =
   ([Transfer deployerAuth userAddress (100 * 10 ^ decimals)], Blocked)).
Proof.
  intros Hready H1. rewrite (main_ready w decimals Hready), H1. cbn [submit].
  split.
  - intros err Hs. unfold await at 1. rewrite Hs. reflexivity.
  - intros Hs Hp. unfold await at 1. rewrite Hs.
    cbn [Waiter.WaitForBlockCompletion andThen]. unfold Waiter.run.
    rewrite (WaiterFacts.run_pending _ Waiter.Subscribed eq_refl Hp). reflexivity.
Qed.

(** [w] with other replies to the balance reads. *)
Definition withBalances (w : World) (balances : nat -> CallResult) : World :=
  mkWorld (DEPLOYER_PRIVATE_KEY w) (USER_PRIVATE_KEY w) (dial w)
    (deployerQueries w) (userQueries w) (abiJSON w) (decimalsCall w)
    balances (transactReplies w) (subscriptions w).

(** X14: the two kinds of read are treated differently.  A failed
    [decimals] read ends the run before anything is submitted; the
    [balanceOf] reads have no influence on it: with any other replies to
    them, failures included, [main] submits the same transactions and
    ends the same way. *)
Theorem main_reads (w : World) :
  (forall err,
      dial w = None ->
      HexToECDSA (DEPLOYER_PRIVATE_KEY w) = inl deployerKey ->
      HexToECDSA (USER_PRIVATE_KEY w) = inl userKey ->
      deployerQueries w = mkClient (inl chainD) (inl gasD) ->
      userQueries w = mkClient (inl chainU) (inl gasU) ->
      abiJSON w = None ->
      decimalsCall w = CallErr err ->
      main HexToECDSA Public PubkeyToAddress w = ([], Exited err)) /\
  (forall decimals balances,
      ready w decimals ->
      main HexToECDSA Public PubkeyToAddress (withBalances w balances)
      = main HexToECDSA Public PubkeyToAddress w).
Proof.
  split.
  - intros err Hdial Hkd Hku Hqd Hqu Habi Hdec.
    unfold main, getAccount. rewrite Hdial, Hkd, Hku, Hqd, Hqu, Habi, Hdec.
    reflexivity.
  - intros decimals balances Hready.
    rewrite (main_ready w decimals Hready).
    rewrite (main_ready (withBalances w balances) decimals); [reflexivity|].
    exact Hready.
Qed.

End MainFacts.

(** A world for one run against a test network: both keys parse, the node
    answers the set-up queries, the token has 18 decimals and every
    balance read fails. *)
Definition demoWorld (replies : nat -> string + error)
  (waits : nat -> option error * list Waiter.event) : World :=
  mkWorld "deployer" "user" None
    (mkClient (inl 97) (inl 10000000000)) (mkClient (inl 97) (inl 10000000000))
    None (CallOk 18) (fun _ => CallErr "execution reverted") replies waits.

Definition demoKey (s : string) : Z + error :=
  if String.eqb s "deployer" then inl 1 else inl 2.

Lemma demoWorld_ready replies waits :
  ready Z demoKey 1 2 97 10000000000 97 10000000000 (demoWorld replies waits) 18.
Proof. repeat split; try reflexivity; lia. Defined.

Lemma main_submits_witness :
  let w := demoWorld (fun i => inl "0xabc")
             (fun _ => (None, [Waiter.NewHead (Waiter.Receipt 0)])) in
  ready Z demoKey 1 2 97 10000000000 97 10000000000 w 18 /\
  OrchestratorFacts.returned (subscriptions w 0%nat) /\
  main demoKey (fun k => k) (fun p => p) w =
  ([Transfer (OrchestratorFacts.authorization 1 97 10000000000) 2 (100 * 10 ^ 18);
    Approve (OrchestratorFacts.authorization 2 97 10000000000) 1 (100 * 10 ^ 18);
    TransferFrom (OrchestratorFacts.authorization 1 97 10000000000) 2 1 (10 * 10 ^ 18)],
   Completed).
Proof.
  cbv zeta.
  assert (R : OrchestratorFacts.returned
                (@None error, [Waiter.NewHead (Waiter.Receipt 0)]))
    by (split; [reflexivity|discriminate]).
  split; [apply demoWorld_ready|]. split; [exact R|].
  exact (main_submits Z Z Z demoKey (fun k => k) (fun p => p) 1 2 97 10000000000
           97 10000000000
           (demoWorld (fun i => inl "0xabc")
              (fun _ => (None, [Waiter.NewHead (Waiter.Receipt 0)])))
           18 "0xabc" "0xabc" "0xabc"
           (demoWorld_ready _ _) eq_refl eq_refl eq_refl R R R).
Defined.

Lemma main_stops_at_rejection_witness :
  let w := demoWorld (fun i => inr "insufficient funds") (fun _ => (None, [])) in
  ready Z demoKey 1 2 97 10000000000 97 10000000000 w 18 /\
  transactReplies w 0%nat = inr "insufficient funds" /\
  main demoKey (fun k => k) (fun p => p) w =
  ([Transfer (OrchestratorFacts.authorization 1 97 10000000000) 2 (100 * 10 ^ 18)],
   Exited "insufficient funds").
Proof.
  cbv zeta. split; [apply demoWorld_ready|]. split; [reflexivity|].
  exact (proj1 (main_stops_at_rejection Z Z Z demoKey (fun k => k) (fun p => p) 1 2
                  97 10000000000 97 10000000000
                  (demoWorld (fun i => inr "insufficient funds") (fun _ => (None, [])))
                  18 "insufficient funds" (demoWorld_ready _ _)) eq_refl).
Defined.

Lemma main_stuck_in_wait_witness :
  let w := demoWorld (fun i => inl "0xabc")
             (fun _ => (None, [Waiter.NewHead (Waiter.ReceiptErr "not found")])) in
  ready Z demoKey 1 2 97 10000000000 97 10000000000 w 18 /\
  transactReplies w 0%nat = inl "0xabc" /\
  main demoKey (fun k => k) (fun p => p) w =
  ([Transfer (OrchestratorFacts.authorization 1 97 10000000000) 2 (100 * 10 ^ 18)],
   Blocked).
Proof.
  cbv zeta. split; [apply demoWorld_ready|]. split; [reflexivity|].
  exact (proj2 (main_stuck_in_wait Z Z Z demoKey (fun k => k) (fun p => p) 1 2
                  97 10000000000 97 10000000000
                  (demoWorld (fun i => inl "0xabc")
                     (fun _ => (None, [Waiter.NewHead (Waiter.ReceiptErr "not found")])))
                  18 "0xabc" (demoWorld_ready _ _) eq_refl) eq_refl eq_refl).
Defined.

Lemma main_reads_witness :
  let w := demoWorld (fun i => inl "0xabc")
             (fun _ => (None, [Waiter.NewHead (Waiter.Receipt 1)])) in
  ready Z demoKey 1 2 97 10000000000 97 10000000000 w 18 /\
  main demoKey (fun k => k) (fun p => p) (withBalances w (fun _ => CallOk 5))
  = main demoKey (fun k => k) (fun p => p) w.
Proof.
  cbv zeta. split; [apply demoWorld_ready|].
  exact (proj2 (main_reads Z Z Z demoKey (fun k => k) (fun p => p) 1 2
                  97 10000000000 97 10000000000
                  (demoWorld (fun i => inl "0xabc")
                     (fun _ => (None, [Waiter.NewHead (Waiter.Receipt 1)]))))
           18 (fun _ => CallOk 5) (demoWorld_ready _ _)).
Defined.

(** ** Log iterators, properties *)

Section IteratorFacts.

Import LogIterator.

Variables Log Event : Type.
Variable newEvent : Event.
Variable UnpackLog : Event -> Log -> Event * option error.
Variable setRaw : Event -> Log -> Event.

Lemma Nexts_failed (it : Iterator Event) (chs : list (received Log)) :
  fail it <> None ->
  Nexts newEvent UnpackLog setRaw it chs = (it, map (fun _ => false) chs).
Proof.
  intros Hf. induction chs as [|ch rest IH]; [reflexivity|].
  cbn [Nexts map]. unfold Next.
  destruct (fail it) as [e|]; [|congruence].
  now rewrite IH.
Qed.

Lemma deliver_parsed (it : Iterator Event) (log : Log) :
  fail it = None ->
  snd (deliver newEvent UnpackLog setRaw it log) = true ->
  Error (fst (deliver newEvent UnpackLog setRaw it log)) = None /\
  Parse newEvent UnpackLog setRaw log
  = (itEvent (fst (deliver newEvent UnpackLog setRaw it log)), None).
Proof.
  intros Hi. unfold deliver, Parse, Error.
  destruct (UnpackLog newEvent log) as [ev [e|]]; cbn; [discriminate|].
  intros _. now split.
Qed.

Lemma drain_done (it : Iterator Event) (poll : option Log) :
  done (fst (drain newEvent UnpackLog setRaw it poll)) = done it.
Proof.
  destruct poll as [log|]; [|reflexivity]. unfold drain, deliver.
  destruct (UnpackLog newEvent log) as [ev [e|]]; reflexivity.
Qed.

(** X15: an error of the subscription ends the iteration for good.  When
    the blocking [select] of a running iterator receives a non-nil error,
    [Next] returns false without looking at the log channel, [Error]
    returns that error, and every later call returns false and leaves
    the iterator as it is, whatever logs are still waiting in the
    channel. *)
Theorem Next_subscription_error
  (it : Iterator Event) (ch : received Log) (e : error) (later : list (received Log)) :
  fail it = None -> done it = false -> onSelect ch = inr (Some e) ->
  let it' := fst (Next newEvent UnpackLog setRaw it ch) in
  snd (Next newEvent UnpackLog setRaw it ch) = false /\
  Error it' = Some e /\
  itEvent it' = itEvent it /\
  Nexts newEvent UnpackLog setRaw it' later = (it', map (fun _ => false) later).
Proof.
  intros Hf Hd Hs. cbv zeta.
  assert (E : Next newEvent UnpackLog setRaw it ch
              = (mkIterator (itEvent it) true (Some e) (unsubscribes it), false)).
  { unfold Next. now rewrite Hf, Hd, Hs. }
  rewrite E. cbn [fst snd]. repeat split.
  apply Nexts_failed. discriminate.
Qed.


(** X17: when the subscription ends without an error (a nil value on its
    error channel), the iterator is done and turns to the logs already
    delivered: with none waiting that call returns false with a nil
    [Error], and the later calls never look at the error channel again:
    their outcome depends on the log channel alone, and the iterator
    stays done. *)
Theorem Next_after_completion (it : Iterator Event) (ch : received Log) :
  fail it = None -> done it = false -> onSelect ch = inr None ->
  let it' := fst (Next newEvent UnpackLog setRaw it ch) in
  done it' = true /\
  (onPoll ch = None ->
   snd (Next newEvent UnpackLog setRaw it ch) = false /\ Error it' = None) /\
  (forall ch1 ch2,
      onPoll ch1 = onPoll ch2 ->
      Next newEvent UnpackLog setRaw it' ch1 = Next newEvent UnpackLog setRaw it' ch2) /\
  (forall ch1, done (fst (Next newEvent UnpackLog setRaw it' ch1)) = true).
Proof.
  intros Hf Hd Hs. cbv zeta.
  assert (E : Next newEvent UnpackLog setRaw it ch
              = drain newEvent UnpackLog setRaw
                  (mkIterator (itEvent it) true None (unsubscribes it)) (onPoll ch)).
  { unfold Next. now rewrite Hf, Hd, Hs. }
  rewrite E.
  assert (Hd' : done (fst (drain newEvent UnpackLog setRaw
                             (mkIterator (itEvent it) true None (unsubscribes it))
                             (onPoll ch))) = true)
    by now rewrite drain_done.
  split; [exact Hd'|]. split.
  - intros Hp. rewrite Hp. now split.
  - remember (fst (drain newEvent UnpackLog setRaw
                     (mkIterator (itEvent it) true None (unsubscribes it)) (onPoll ch)))
      as it' eqn:Hit'.
    clear Hit' E. split.
    + intros ch1 ch2 Hp. unfold Next. rewrite Hd'.
      destruct (fail it'); [reflexivity|]. now rewrite Hp.
    + intros ch1. unfold Next. rewrite Hd'.
      destruct (fail it'); [exact Hd'|]. now rewrite drain_done.
Qed.

End IteratorFacts.

Definition demoUnpack (ev : Z) (log : Z) : Z * option error :=
  if log <? 0 then (ev, Some "abi: cannot unmarshal") else (log, None).

Lemma Next_subscription_error_witness :
  let it := LogIterator.mkIterator (@None Z) false None 0 in
  let ch := LogIterator.mkReceived (@inr Z _ (Some "connection closed")) (Some 7) in
  LogIterator.fail it = None /\ LogIterator.done it = false /\
  LogIterator.onSelect ch = inr (Some "connection closed") /\
  snd (LogIterator.Next 0 demoUnpack (fun ev _ => ev) it ch) = false /\
  LogIterator.Error (fst (LogIterator.Next 0 demoUnpack (fun ev _ => ev) it ch))
  = Some "connection closed".
Proof.
  cbv zeta. split; [reflexivity|]. split; [reflexivity|]. split; [reflexivity|].
  pose proof (Next_subscription_error Z Z 0 demoUnpack (fun ev _ => ev)
                (LogIterator.mkIterator (@None Z) false None 0)
                (LogIterator.mkReceived (@inr Z _ (Some "connection closed")) (Some 7))
                "connection closed" [] eq_refl eq_refl eq_refl) as H.
  cbv zeta in H. split; [exact (proj1 H)|exact (proj1 (proj2 H))].
Defined.


Lemma Next_after_completion_witness :
  let it := LogIterator.mkIterator (@None Z) false None 0 in
  let ch := LogIterator.mkReceived (@inr Z (option error) None) (Some 7) in
  LogIterator.fail it = None /\ LogIterator.done it = false /\
  LogIterator.onSelect ch = inr None /\
  LogIterator.done (fst (LogIterator.Next 0 demoUnpack (fun ev _ => ev) it ch)) = true.
Proof.
  cbv zeta. split; [reflexivity|]. split; [reflexivity|]. split; [reflexivity|].
  pose proof (Next_after_completion Z Z 0 demoUnpack (fun ev _ => ev)
                (LogIterator.mkIterator (@None Z) false None 0)
                (LogIterator.mkReceived (@inr Z (option error) None) (Some 7))
                eq_refl eq_refl eq_refl) as H.
  cbv zeta in H. exact (proj1 H).
Defined.
